(** * Verification of the parser hardening primitives

  Shallow embedding of
  - [workers/rate_limiter.py]   (class [RateLimiter]),
  - [core/validators.py]        (class [RateLimitValidator]),
  - [core/graceful_shutdown.py] (class [GracefulShutdownManager]).

  Python floats (timestamps, window lengths, timeouts) are modelled as
  exact rationals [Q]; Python ints as [Z]; the [Dict[str, List[float]]]
  of the limiter as a [gmap string (list Q)]. *)

From Stdlib Require Import ZArith QArith Qround Lqa Lia List.
From stdpp Require Import gmap strings list fin_maps.

Local Open Scope Z_scope.

(** ** Rational helpers *)

Module PyNum.

(** Python's [a < b] on floats, as a boolean. *)
Definition Qlt_bool (a b : Q) : bool := negb (Qle_bool b a).

(** Python's [int(x)] on a float: truncation toward zero. *)
Definition py_int (x : Q) : Z := Z.quot (Qnum x) (Zpos (Qden x)).

(** Python's [min(l)]: the first least element, [None] standing for the
    [ValueError] raised on an empty sequence. *)
Definition py_min (l : list Q) : option Q :=
  match l with
  | [] => None
  | t :: l' => Some (fold_left (fun m u => if Qlt_bool u m then u else m) l' t)
  end.

End PyNum.
Import PyNum.

(** ** workers/rate_limiter.py *)

Module Limiter.

(** [self.stats] *)
Record Stats := mkStats {
  total_checks : Z;
  allowed : Z;
  blocked : Z;
  users_tracked : Z
}.

(** One [RateLimiter] instance.  The lock is not a field: its only role
    is to make each method body one atomic step, which is how the
    methods are modelled below. *)
Record RateLimiter := mkRateLimiter {
  max_requests : Z;
  window_seconds : Q;
  requests : gmap string (list Q);
  stats : Stats
}.

(** [RateLimiter.__init__] *)
Definition init (max_requests : Z) (window_seconds : Q) : RateLimiter :=
  {| max_requests := max_requests;
     window_seconds := window_seconds;
     requests := ∅;
     stats := {| total_checks := 0; allowed := 0; blocked := 0;
                 users_tracked := 0 |} |}.

Definition DEFAULT_MAX_REQUESTS : Z := 5.
Definition DEFAULT_WINDOW_SECONDS : Q := 1.

(** The two f-strings returned by [check_limit], kept structured. *)
Inductive message :=
| RateLimitExceeded (user_id : string) (max_requests : Z)
                    (window_seconds : Q) (retry_after_int : Z)
| RequestAllowed (user_id : string).

(** What a call to [check_limit] gives back: the returned tuple, or the
    [ValueError] that [min] raises on an empty list. *)
Inductive result :=
| Return (allowed : bool) (msg : message)
| ValueError.

Definition set_stats (f : Stats -> Stats) (self : RateLimiter) : RateLimiter :=
  {| max_requests := max_requests self;
     window_seconds := window_seconds self;
     requests := requests self;
     stats := f (stats self) |}.

Definition set_requests (user_id : string) (l : list Q) (self : RateLimiter)
  : RateLimiter :=
  {| max_requests := max_requests self;
     window_seconds := window_seconds self;
     requests := <[user_id := l]> (requests self);
     stats := stats self |}.

Definition incr_total_checks (s : Stats) : Stats :=
  {| total_checks := total_checks s + 1; allowed := allowed s;
     blocked := blocked s; users_tracked := users_tracked s |}.

Definition incr_blocked (s : Stats) : Stats :=
  {| total_checks := total_checks s; allowed := allowed s;
     blocked := blocked s + 1; users_tracked := users_tracked s |}.

Definition incr_allowed (s : Stats) : Stats :=
  {| total_checks := total_checks s; allowed := allowed s + 1;
     blocked := blocked s; users_tracked := users_tracked s |}.

Definition set_users_tracked (n : Z) (s : Stats) : Stats :=
  {| total_checks := total_checks s; allowed := allowed s;
     blocked := blocked s; users_tracked := n |}.

(** [self.requests[user_id]] on a [defaultdict(list)]. *)
Definition get_requests (self : RateLimiter) (user_id : string) : list Q :=
  default [] (requests self !! user_id).

(** [[t for t in user_requests if t > window_start]] *)
Definition prune (window_start : Q) (user_requests : list Q) : list Q :=
  List.filter (fun t => Qlt_bool window_start t) user_requests.

(** [int(retry_after) + (1 if retry_after > int(retry_after) else 0)] *)
Definition round_up (retry_after : Q) : Z :=
  py_int retry_after
  + (if Qlt_bool (inject_Z (py_int retry_after)) retry_after then 1 else 0).

(** [RateLimiter.check_limit], the body of [with self._lock], with the
    reading of [time.time()] passed in as [current_time]. *)
Definition check_limit (self : RateLimiter) (user_id : string)
    (current_time : Q) : RateLimiter * result :=
  let self := set_stats incr_total_checks self in
  let window_start := (current_time - window_seconds self)%Q in
  let user_requests := prune window_start (get_requests self user_id) in
  let self := set_requests user_id user_requests self in
  if Z.of_nat (length user_requests) >=? max_requests self then
    match py_min user_requests with
    | None => (self, ValueError)
    | Some oldest_request =>
        let retry_after :=
          (oldest_request + window_seconds self - current_time)%Q in
        let retry_after_int := round_up retry_after in
        let msg := RateLimitExceeded user_id (max_requests self)
                     (window_seconds self) retry_after_int in
        (set_stats incr_blocked self, Return false msg)
    end
  else
    let user_requests := user_requests ++ [current_time] in
    let self := set_requests user_id user_requests self in
    let self :=
      if Z.of_nat (size (requests self)) >? users_tracked (stats self)
      then set_stats (set_users_tracked (Z.of_nat (size (requests self)))) self
      else self in
    (set_stats incr_allowed self, Return true (RequestAllowed user_id)).

(** The dictionary built by [get_stats]. *)
Record StatsSnapshot := mkSnapshot {
  snap_max_requests : Z;
  snap_window_seconds : Q;
  snap_total_checks : Z;
  snap_allowed : Z;
  snap_blocked : Z;
  snap_users : Z;
  snap_block_rate : Q
}.

(** [RateLimiter.get_stats] *)
Definition get_stats (self : RateLimiter) : StatsSnapshot :=
  let total := total_checks (stats self) in
  {| snap_max_requests := max_requests self;
     snap_window_seconds := window_seconds self;
     snap_total_checks := total;
     snap_allowed := allowed (stats self);
     snap_blocked := blocked (stats self);
     snap_users := Z.of_nat (size (requests self));
     snap_block_rate :=
       if total >? 0
       then (inject_Z (blocked (stats self)) / inject_Z total * 100)%Q
       else 0%Q |}.

(** *** Call sequences

    With the lock held for the whole of each method body, an execution
    with any number of threads is a sequence of atomic calls, in the
    order in which the lock was acquired. *)
Inductive call :=
| CheckLimit (user_id : string) (current_time : Q)
| GetStats.

Inductive observation :=
| Checked (user_id : string) (current_time : Q) (r : result)
| Snapshot (s : StatsSnapshot).

Definition step (self : RateLimiter) (c : call) : RateLimiter * observation :=
  match c with
  | CheckLimit user_id current_time =>
      let (self', r) := check_limit self user_id current_time in
      (self', Checked user_id current_time r)
  | GetStats => (self, Snapshot (get_stats self))
  end.

Fixpoint run (self : RateLimiter) (cs : list call)
  : RateLimiter * list observation :=
  match cs with
  | [] => (self, [])
  | c :: cs' =>
      let (self1, o) := step self c in
      let (self2, os) := run self1 cs' in
      (self2, o :: os)
  end.

(** Timestamps at which [time.time()] was read, in call order. *)
Fixpoint call_times (cs : list call) : list Q :=
  match cs with
  | [] => []
  | CheckLimit _ t :: cs' => t :: call_times cs'
  | GetStats :: cs' => call_times cs'
  end.

(** Keys that were checked. *)
Fixpoint call_keys (cs : list call) : list string :=
  match cs with
  | [] => []
  | CheckLimit k _ :: cs' => k :: call_keys cs'
  | GetStats :: cs' => call_keys cs'
  end.

(** The clock never goes back between two calls. *)
Fixpoint nondecreasing (ts : list Q) : Prop :=
  match ts with
  | [] => True
  | t :: ts' => Forall (Qle t) ts' /\ nondecreasing ts'
  end.

(** Timestamps of the calls for [user_id] that returned [allowed=True]. *)
Fixpoint allowed_times (user_id : string) (os : list observation) : list Q :=
  match os with
  | [] => []
  | Checked k t (Return true _) :: os' =>
      if String.eqb k user_id then t :: allowed_times user_id os'
      else allowed_times user_id os'
  | _ :: os' => allowed_times user_id os'
  end.






(** [allowed + blocked == total_checks] on the live counters and on a
    snapshot. *)
Definition stats_consistent (s : Stats) : Prop :=
  allowed s + blocked s = total_checks s.

Definition snapshot_consistent (o : observation) : Prop :=
  match o with
  | Snapshot s => snap_allowed s + snap_blocked s = snap_total_checks s
  | Checked _ _ _ => True
  end.

(** The call gave back a tuple rather than raising. *)
Definition returned (o : observation) : Prop :=
  match o with
  | Checked _ _ ValueError => False
  | _ => True
  end.

End Limiter.

(** ** core/validators.py *)

Module Validators.

Inductive pyfloat :=
| Finite (x : Q)
| Infinity (negative : bool)
| NaN.

(** The values a caller can pass for a configuration parameter. *)
Inductive pyval :=
| PyInt (z : Z)
| PyBool (b : bool)
| PyFloat (x : pyfloat)
| PyStr (s : string)
| PyNone.

(** [isinstance(v, int)]; [bool] is a subclass of [int]. *)
Definition isinstance_int (v : pyval) : bool :=
  match v with
  | PyInt _ | PyBool _ => true
  | _ => false
  end.

(** The integer an [int] instance compares as ([True] is 1, [False] is 0);
    [None] for everything that is not an [int]. *)
Definition as_int (v : pyval) : option Z :=
  match v with
  | PyInt z => Some z
  | PyBool b => Some (if b then 1 else 0)
  | _ => None
  end.

(** [v <= n] and [v > n] for an [int] instance [v]; the validator only
    evaluates them behind an [isinstance] test. *)
Definition le_int (v : pyval) (n : Z) : bool :=
  match as_int v with
  | Some z => z <=? n
  | None => false
  end.

Definition gt_int (v : pyval) (n : Z) : bool :=
  match as_int v with
  | Some z => z >? n
  | None => false
  end.

(** [RateLimitValidator.validate_rate_limit_config] *)
Definition validate_rate_limit_config (max_requests window_seconds : pyval)
  : bool * string :=
  if negb (isinstance_int max_requests) || le_int max_requests 0 then
    (false, "max_requests must be positive integer"%string)
  else if negb (isinstance_int window_seconds) || le_int window_seconds 0 then
    (false, "window_seconds must be positive integer"%string)
  else if gt_int max_requests 10000 then
    (false, "max_requests exceeds reasonable limit of 10000"%string)
  else if gt_int window_seconds 86400 then
    (false, "window_seconds exceeds 24 hours"%string)
  else (true, ""%string).




End Validators.

(** ** core/graceful_shutdown.py *)

Module Shutdown.

(** *** Exceptions

    [except Exception] separates the instances of [Exception] from what
    derives from [BaseException] only ([asyncio.CancelledError],
    [KeyboardInterrupt], [SystemExit]). *)
Inductive exn :=
| Exception_ (what : string)
| TimeoutError
| BaseException_ (what : string).

Definition isinstance_Exception (e : exn) : bool :=
  match e with
  | BaseException_ _ => false
  | _ => true
  end.

Inductive outcome (A : Type) :=
| Returned (a : A)
| Raised (e : exn).
Arguments Returned {A} a.
Arguments Raised {A} e.

(** *** The objects the manager holds *)

(** An [asyncio.Task] as the manager sees it.  [honours_cancel] tells
    whether the task, once cancellation is requested, reaches its
    terminal state within the bound it is awaited with. *)
Record Task := mkTask {
  get_name : string;
  done : bool;
  cancelled : bool;
  cancel_requested : bool;
  honours_cancel : bool
}.

(** The attributes of the manager that a handler, or a coroutine that
    runs while the shutdown is suspended, can read and write.  The
    handler list is left out: registration is assumed to be over when a
    shutdown begins. *)
Record view := mkView {
  v_background_tasks : list Task;
  v_pending_operations : Z;
  v_shutting_down : bool
}.

(** A registered callable: its [__name__], whether
    [asyncio.iscoroutinefunction] holds of it, and what calling it (and
    awaiting it, for a coroutine function) does.  Callables without a
    [__name__] are not modelled: [register_shutdown_handler] already
    raises on them. *)
Record handler := mkHandler {
  __name__ : string;
  iscoroutinefunction : bool;
  body : view -> view * outcome unit
}.

(** What happens while the shutdown coroutine is suspended in an
    [await]: the timer fires [late_ms] milliseconds late, other
    coroutines act, and the await may raise when resumed. *)
Record interference := mkInterference {
  late_ms : N;
  others : view -> view;
  delivered : option exn
}.

Definition idle : interference :=
  {| late_ms := 0; others := fun v => v; delivered := None |}.

Inductive level := DEBUG | INFO | WARNING | ERROR.

(** The f-strings passed to [logger], kept structured. *)
Inductive log_message :=
| RegisteredBackgroundTask (name : string)
| RegisteredShutdownHandler (name : string)
| TimeoutWaiting (pending : Z) (timeout : Q)
| WaitingFor (pending : Z)
| AllPendingCompleted
| NoBackgroundTasks
| CancellingTasks (n : nat)
| CancellingTask (name : string)
| AllTasksCancelled
| TimeoutCancelling (timeout : Q)
| ErrorCancelling (e : exn)
| NoShutdownHandlers
| ExecutingHandlers (n : nat)
| ExecutingHandler (name : string)
| HandlerCompleted (name : string)
| ErrorInHandler (name : string) (e : exn)
| AllHandlersCompleted
| AlreadyInProgress
| StartingShutdown
| ShutdownCompleted
| ErrorDuringShutdown (e : exn).

(** What the manager does to the outside, in order. *)
Inductive event :=
| Log (lvl : level) (msg : log_message)
| Call (handler_name : string) (awaited : bool)
| Cancel (task_name : string).

(** A [GracefulShutdownManager] together with the event loop it runs
    on: the loop clock, what the coming suspensions will bring, and the
    events so far. *)
Record world := mkWorld {
  background_tasks : list Task;
  pending_operations : Z;
  shutdown_handlers : list handler;
  _shutting_down : bool;
  loop_time : Q;
  schedule : list interference;
  trace : list event
}.

Definition _max_shutdown_time : Z := 30.

(** [GracefulShutdownManager.__init__] on a loop whose clock reads
    [now]. *)
Definition init (now : Q) (sched : list interference) : world :=
  {| background_tasks := []; pending_operations := 0;
     shutdown_handlers := []; _shutting_down := false;
     loop_time := now; schedule := sched; trace := [] |}.

Definition get_view (w : world) : view :=
  {| v_background_tasks := background_tasks w;
     v_pending_operations := pending_operations w;
     v_shutting_down := _shutting_down w |}.

Definition put_view (v : view) (w : world) : world :=
  {| background_tasks := v_background_tasks v;
     pending_operations := v_pending_operations v;
     shutdown_handlers := shutdown_handlers w;
     _shutting_down := v_shutting_down v;
     loop_time := loop_time w; schedule := schedule w; trace := trace w |}.

Definition emit (evs : list event) (w : world) : world :=
  {| background_tasks := background_tasks w;
     pending_operations := pending_operations w;
     shutdown_handlers := shutdown_handlers w;
     _shutting_down := _shutting_down w;
     loop_time := loop_time w; schedule := schedule w;
     trace := trace w ++ evs |}.

Definition set_background_tasks (ts : list Task) (w : world) : world :=
  {| background_tasks := ts;
     pending_operations := pending_operations w;
     shutdown_handlers := shutdown_handlers w;
     _shutting_down := _shutting_down w;
     loop_time := loop_time w; schedule := schedule w; trace := trace w |}.

Definition set_pending_operations (n : Z) (w : world) : world :=
  {| background_tasks := background_tasks w;
     pending_operations := n;
     shutdown_handlers := shutdown_handlers w;
     _shutting_down := _shutting_down w;
     loop_time := loop_time w; schedule := schedule w; trace := trace w |}.

Definition set_shutdown_handlers (hs : list handler) (w : world) : world :=
  {| background_tasks := background_tasks w;
     pending_operations := pending_operations w;
     shutdown_handlers := hs;
     _shutting_down := _shutting_down w;
     loop_time := loop_time w; schedule := schedule w; trace := trace w |}.

Definition set_shutting_down (b : bool) (w : world) : world :=
  {| background_tasks := background_tasks w;
     pending_operations := pending_operations w;
     shutdown_handlers := shutdown_handlers w;
     _shutting_down := b;
     loop_time := loop_time w; schedule := schedule w; trace := trace w |}.

(** The loop resumes the coroutine [d] seconds later, plus the lateness
    the next interference brings. *)
Definition resume_after (d : Q) (w : world) : world :=
  let i := hd idle (schedule w) in
  let w := put_view (others i (get_view w)) w in
  {| background_tasks := background_tasks w;
     pending_operations := pending_operations w;
     shutdown_handlers := shutdown_handlers w;
     _shutting_down := _shutting_down w;
     loop_time := (loop_time w + d + inject_Z (Z.of_N (late_ms i)) / 1000)%Q;
     schedule := tl (schedule w);
     trace := trace w |}.

(** *** Registration and counting *)

(** [register_background_task] *)
Definition register_background_task (task : Task) (w : world) : world :=
  emit [Log DEBUG (RegisteredBackgroundTask (get_name task))]
       (set_background_tasks (background_tasks w ++ [task]) w).

(** [register_shutdown_handler] *)
Definition register_shutdown_handler (h : handler) (w : world) : world :=
  emit [Log DEBUG (RegisteredShutdownHandler (__name__ h))]
       (set_shutdown_handlers (shutdown_handlers w ++ [h]) w).

(** [increment_pending_operations] *)
Definition increment_pending_operations (w : world) : world :=
  set_pending_operations (pending_operations w + 1) w.

(** [decrement_pending_operations] *)
Definition decrement_pending_operations (w : world) : world :=
  if pending_operations w >? 0
  then set_pending_operations (pending_operations w - 1) w
  else w.

Inductive counter_call := Increment | Decrement.

Definition count (w : world) (c : counter_call) : world :=
  match c with
  | Increment => increment_pending_operations w
  | Decrement => decrement_pending_operations w
  end.

(** *** Coroutines

    A coroutine of the manager takes the world to a new world and either
    returns or raises.  [None] is reserved for a polling loop that was
    given too few iterations. *)
Definition M (A : Type) : Type := world -> option (world * outcome A).

Definition ret {A} (a : A) : M A := fun w => Some (w, Returned a).

Definition bind {A B} (m : M A) (f : A -> M B) : M B :=
  fun w =>
    match m w with
    | None => None
    | Some (w', Returned a) => f a w'
    | Some (w', Raised e) => Some (w', Raised e)
    end.

Definition raise {A} (e : exn) : M A := fun w => Some (w, Raised e).

Definition modify (f : world -> world) : M unit :=
  fun w => Some (f w, Returned tt).

Definition logger (lvl : level) (msg : log_message) : M unit :=
  modify (emit [Log lvl msg]).

(** [try: m  except Exception as e: h e] *)
Definition try_except {A} (m : M A) (h : exn -> M A) : M A :=
  fun w =>
    match m w with
    | Some (w', Raised e) =>
        if isinstance_Exception e then h e w' else Some (w', Raised e)
    | r => r
    end.

(** [try: m  finally: f], for an [f] that cannot raise. *)
Definition try_finally {A} (m : M A) (f : world -> world) : M A :=
  fun w =>
    match m w with
    | Some (w', r) => Some (f w', r)
    | None => None
    end.

Declare Scope coroutine_scope.
Delimit Scope coroutine_scope with co.
Notation "'let!' x ':=' m 'in' k" := (bind m (fun x => k))
  (at level 10, x name, m at level 100, k at level 200) : coroutine_scope.
Notation "m >> k" := (bind m (fun _ => k))
  (at level 100, k at level 200, right associativity) : coroutine_scope.
Local Open Scope coroutine_scope.

(** [await asyncio.sleep(d)] *)
Definition sleep (d : Q) : M unit :=
  fun w =>
    let w' := resume_after d w in
    match delivered (hd idle (schedule w)) with
    | Some e => Some (w', Raised e)
    | None => Some (w', Returned tt)
    end.

(** Iterations that the polling loop of
    [wait_for_pending_operations] can need: every sleep lasts at least
    a tenth of a second. *)
Definition poll_bound (timeout : Q) : nat :=
  S (Z.to_nat (Qfloor (timeout * 10) + 1)).

(** The [while self.pending_operations > 0] loop. *)
Fixpoint poll (fuel : nat) (timeout start_time : Q) : M bool :=
  match fuel with
  | O => fun _ => None
  | S fuel' =>
      fun w =>
        if pending_operations w >? 0 then
          let elapsed := (loop_time w - start_time)%Q in
          if Qlt_bool timeout elapsed then
            (logger WARNING (TimeoutWaiting (pending_operations w) timeout)
             >> ret false) w
          else
            (logger DEBUG (WaitingFor (pending_operations w))
             >> sleep (1#10)
             >> poll fuel' timeout start_time) w
        else
          (logger INFO AllPendingCompleted >> ret true) w
  end.

(** [wait_for_pending_operations] *)
Definition wait_for_pending_operations (timeout : Q) : M bool :=
  fun w => poll (poll_bound timeout) timeout (loop_time w) w.

(** [task.cancel()] on a task that is not done. *)
Definition cancel (t : Task) : Task :=
  {| get_name := get_name t; done := done t; cancelled := cancelled t;
     cancel_requested := true; honours_cancel := honours_cancel t |}.

(** The [for task in self.background_tasks] loop. *)
Fixpoint cancel_pending (ts : list Task) : list Task * list event :=
  match ts with
  | [] => ([], [])
  | t :: ts' =>
      let (ts'', evs) := cancel_pending ts' in
      if negb (done t) then
        (cancel t :: ts'',
         Log DEBUG (CancellingTask (get_name t)) :: Cancel (get_name t) :: evs)
      else (t :: ts'', evs)
  end.

(** The state a task is in once it has been awaited for the bound. *)
Definition settle (t : Task) : Task :=
  if done t then t
  else if cancel_requested t && honours_cancel t then
    {| get_name := get_name t; done := true; cancelled := true;
       cancel_requested := true; honours_cancel := honours_cancel t |}
  else t.

(** [await asyncio.wait_for(g, timeout=timeout)], where [g] is the
    [asyncio.gather] of all the tracked tasks with
    [return_exceptions=True]. *)
Definition wait_for_gather (timeout : Q) : M unit :=
  fun w =>
    let ts := map settle (background_tasks w) in
    let finished := forallb done ts in
    let w' := resume_after (if finished then 0 else timeout)
                           (set_background_tasks ts w) in
    match delivered (hd idle (schedule w)) with
    | Some e => Some (w', Raised e)
    | None =>
        if finished then Some (w', Returned tt)
        else Some (w', Raised TimeoutError)
    end.

(** [cancel_background_tasks] *)
Definition cancel_background_tasks (timeout : Q) : M unit :=
  fun w =>
    match background_tasks w with
    | [] => logger DEBUG NoBackgroundTasks w
    | ts =>
        (logger INFO (CancellingTasks (length ts))
         >> modify (fun w =>
                      let (ts', evs) := cancel_pending (background_tasks w) in
                      emit evs (set_background_tasks ts' w))
         >> try_except
              (wait_for_gather timeout >> logger INFO AllTasksCancelled)
              (fun e =>
                 match e with
                 | TimeoutError => logger ERROR (TimeoutCancelling timeout)
                 | _ => logger ERROR (ErrorCancelling e)
                 end)) w
    end.

(** [await handler()] or [handler()] *)
Definition invoke (h : handler) (awaited : bool) : M unit :=
  fun w =>
    let (v, r) := body h (get_view w) in
    Some (put_view v (emit [Call (__name__ h) awaited] w), r).

(** One iteration of the [for handler in self.shutdown_handlers] loop. *)
Definition run_handler (h : handler) : M unit :=
  try_except
    (logger DEBUG (ExecutingHandler (__name__ h))
     >> (if iscoroutinefunction h then invoke h true else invoke h false)
     >> logger DEBUG (HandlerCompleted (__name__ h)))
    (fun e => logger ERROR (ErrorInHandler (__name__ h) e)).

Fixpoint for_handlers (hs : list handler) : M unit :=
  match hs with
  | [] => ret tt
  | h :: hs' => run_handler h >> for_handlers hs'
  end.

(** [execute_shutdown_handlers] *)
Definition execute_shutdown_handlers : M unit :=
  fun w =>
    match shutdown_handlers w with
    | [] => logger DEBUG NoShutdownHandlers w
    | hs =>
        (logger INFO (ExecutingHandlers (length hs))
         >> for_handlers hs
         >> logger INFO AllHandlersCompleted) w
    end.

(** The body of the [try] in [graceful_shutdown]. *)
Definition shutdown_sequence : M unit :=
  execute_shutdown_handlers
  >> (let! _drained := wait_for_pending_operations 10 in
      cancel_background_tasks 10
      >> logger INFO ShutdownCompleted).

(** [graceful_shutdown] *)
Definition graceful_shutdown : M unit :=
  fun w =>
    if _shutting_down w then logger WARNING AlreadyInProgress w
    else
      (modify (set_shutting_down true)
       >> logger INFO StartingShutdown
       >> try_finally
            (try_except shutdown_sequence
               (fun e => logger ERROR (ErrorDuringShutdown e)))
            (set_shutting_down false)) w.

(** The dictionary built by [get_status]. *)
Record Status := mkStatus {
  status_shutting_down : bool;
  status_pending_operations : Z;
  status_background_tasks : nat;
  status_active_tasks : nat;
  status_shutdown_handlers : nat
}.

(** [get_status] *)
Definition get_status (w : world) : Status :=
  let active_tasks :=
    List.filter (fun t => negb (done t)) (background_tasks w) in
  {| status_shutting_down := _shutting_down w;
     status_pending_operations := pending_operations w;
     status_background_tasks := length (background_tasks w);
     status_active_tasks := length active_tasks;
     status_shutdown_handlers := length (shutdown_handlers w) |}.

(** *** Observations on a trace *)

(** Names of the handlers that were called, in order. *)
Fixpoint calls (evs : list event) : list string :=
  match evs with
  | [] => []
  | Call name _ :: evs' => name :: calls evs'
  | _ :: evs' => calls evs'
  end.


(** Nothing but the counting calls themselves writes the counter: no
    handler and no coroutine that runs during a suspension. *)
Definition counter_left_alone (w : world) : Prop :=
  Forall (fun h => forall v,
            v_pending_operations (fst (body h v)) = v_pending_operations v)
         (shutdown_handlers w)
  /\ Forall (fun i => forall v,
               v_pending_operations (others i v) = v_pending_operations v)
            (schedule w).




(** *** Reasoning about coroutines *)

(** [m], started in [w], finishes, and its final world and outcome
    satisfy [Q]. *)
Definition wp {A} (m : M A) (Q : world -> outcome A -> Prop) (w : world)
  : Prop :=
  exists w' r, m w = Some (w', r) /\ Q w' r.


(** What every coroutine of the manager leaves as it found it: the
    handler list, and the counter when nobody else writes it. *)
Definition evolves (w w' : world) : Prop :=
  shutdown_handlers w' = shutdown_handlers w
  /\ (counter_left_alone w ->
      pending_operations w' = pending_operations w
      /\ counter_left_alone w').

(** What a wait on the counter guarantees: it calls no handler, and its
    answer tells whether the counter had reached zero. *)
Definition drain_post (w : world) (w' : world) (r : outcome bool) : Prop :=
  evolves w w'
  /\ calls (trace w') = calls (trace w)
  /\ match r with
     | Returned true => pending_operations w' <= 0
     | Returned false => 0 < pending_operations w'
     | Raised _ => True
     end.




End Shutdown.

(** ** Sample managers *)

Module Scenarios.
Import Shutdown.

(** A synchronous handler that succeeds. *)
Definition save_state : handler :=
  {| __name__ := "save_state"; iscoroutinefunction := false;
     body := fun v => (v, Returned tt) |}.

(** A coroutine handler that fails. *)
Definition close_db : handler :=
  {| __name__ := "close_db"; iscoroutinefunction := true;
     body := fun v => (v, Raised (Exception_ "connection lost")) |}.

Definition register_all (hs : list handler) (w : world) : world :=
  fold_left (fun w h => register_shutdown_handler h w) hs w.


Definition two_handlers : world :=
  register_all [close_db; save_state] (init 0 []).

(** Three operations in flight that never finish. *)
Definition stuck_operations : world :=
  fold_left count [Increment; Increment; Increment] (init 0 []).

(** One operation in flight, and an await that raises when resumed. *)
Definition failing_await (e : exn) : world :=
  increment_pending_operations
    (init 0 [{| late_ms := 3; others := fun v => v; delivered := Some e |}]).

(** A tracked task that honours cancellation and one that does not. *)
Definition two_tasks : world :=
  register_background_task
    {| get_name := "poller"; done := false; cancelled := false;
       cancel_requested := false; honours_cancel := false |}
    (register_background_task
       {| get_name := "flusher"; done := false; cancelled := false;
          cancel_requested := false; honours_cancel := true |}
       (init 0 [])).

End Scenarios.

(** ** Counting and projecting runs of the limiter *)

Module LimiterAux.
Import Limiter.

(** Number of [check_limit] calls among the observations. *)
Fixpoint count_checks (os : list observation) : Z :=
  match os with
  | [] => 0
  | Checked _ _ _ :: os' => 1 + count_checks os'
  | Snapshot _ :: os' => count_checks os'
  end.

(** Number of [check_limit] calls that returned [allowed = b]. *)
Fixpoint count_returned (b : bool) (os : list observation) : Z :=
  match os with
  | [] => 0
  | Checked _ _ (Return b' _) :: os' =>
      (if Bool.eqb b b' then 1 else 0) + count_returned b os'
  | _ :: os' => count_returned b os'
  end.

(** The calls of a run that are [check_limit] calls for [k]. *)
Fixpoint for_key (k : string) (cs : list call) : list call :=
  match cs with
  | [] => []
  | CheckLimit k' t :: cs' =>
      if String.eqb k' k then CheckLimit k' t :: for_key k cs'
      else for_key k cs'
  | GetStats :: cs' => for_key k cs'
  end.

(** What the caller of [check_limit] for [k] saw, call after call. *)
Fixpoint decisions (k : string) (os : list observation) : list (Q * result) :=
  match os with
  | [] => []
  | Checked k' t r :: os' =>
      if String.eqb k' k then (t, r) :: decisions k os'
      else decisions k os'
  | Snapshot _ :: os' => decisions k os'
  end.

(** The keys that were checked, as a set. *)
Definition distinct_keys (cs : list call) : gset string :=
  list_to_set (call_keys cs).


End LimiterAux.

(** ** core/validators.py: messages and user ids *)

Module Messages.

(** A Python [str], as its sequence of code points. *)
Definition pystr : Type := list N.

(** What a caller can pass where a [str] is expected: a [str], or another
    object, of which the validators only use the name of the type and the
    result of [str()]. *)
Inductive pyobj :=
| Str (s : pystr)
| Other (type_name : string) (rendering : pystr).

Definition MAX_MESSAGE_LENGTH : nat := 4000.
Definition MIN_MESSAGE_LENGTH : nat := 1.

(** The error messages of [validate_message], kept structured. *)
Inductive message_error :=
| MustBeString (type_name : string)
| CannotBeEmpty
| ExceedsMaxLength (limit : nat)
| ContainsNullByte
| InvalidControlCharacter (position : nat) (char_code : N)
| OnlyWhitespace.

(** The characters [str.strip()] removes: those for which [str.isspace]
    holds. *)
Definition isspace (c : N) : bool :=
  ((9 <=? c) && (c <=? 13) || (28 <=? c) && (c <=? 32)
   || (c =? 133) || (c =? 160) || (c =? 5760)
   || (8192 <=? c) && (c <=? 8202)
   || (c =? 8232) || (c =? 8233) || (c =? 8239) || (c =? 8287)
   || (c =? 12288))%N.

(** [str.lstrip()] *)
Fixpoint lstrip (s : pystr) : pystr :=
  match s with
  | [] => []
  | c :: s' => if isspace c then lstrip s' else s
  end.

(** [str.rstrip()] *)
Fixpoint rstrip (s : pystr) : pystr :=
  match s with
  | [] => []
  | c :: s' =>
      match rstrip s' with
      | [] => if isspace c then [] else [c]
      | r => c :: r
      end
  end.

(** [str.strip()] *)
Definition strip (s : pystr) : pystr := rstrip (lstrip s).

(** [char_code < 32 and char_code not in (9, 10, 11, 12, 13)] *)
Definition invalid_control (char_code : N) : bool :=
  ((char_code <? 32)
   && negb (existsb (N.eqb char_code) [9; 10; 11; 12; 13]))%N.

(** The [for i, char in enumerate(message)] loop, from index [i] on: the
    first character it returns on, if any. *)
Fixpoint first_invalid_control (i : nat) (s : pystr) : option (nat * N) :=
  match s with
  | [] => None
  | c :: s' =>
      if invalid_control c then Some (i, c)
      else first_invalid_control (S i) s'
  end.

(** [MessageValidator.validate_message]; the empty error message of the
    accepting return is [None]. *)
Definition validate_message (message : pyobj) : bool * option message_error :=
  match message with
  | Other type_name _ => (false, Some (MustBeString type_name))
  | Str s =>
      if (length s =? 0)%nat then (false, Some CannotBeEmpty)
      else if (MAX_MESSAGE_LENGTH <? length s)%nat then
        (false, Some (ExceedsMaxLength MAX_MESSAGE_LENGTH))
      else if existsb (N.eqb 0) s then (false, Some ContainsNullByte)
      else
        match first_invalid_control 0 s with
        | Some (i, char_code) =>
            (false, Some (InvalidControlCharacter i char_code))
        | None =>
            match strip s with
            | [] => (false, Some OnlyWhitespace)
            | _ => (true, None)
            end
        end
  end.

(** [ord(char) >= 32 or char in '\t\n\r\v\f'] *)
Definition kept (c : N) : bool :=
  ((32 <=? c) || existsb (N.eqb c) [9; 10; 13; 11; 12])%N.

(** [MessageValidator.sanitize_message] *)
Definition sanitize_message (message : pyobj) : pystr :=
  match message with
  | Other _ _ => []
  | Str s =>
      let s := List.filter (fun c => negb (c =? 0)%N) s in
      let s := List.filter kept s in
      strip s
  end.

(** The error messages of [validate_user_id]. *)
Inductive user_id_error :=
| UserIdEmpty
| UserIdTooLong
| UserIdInvalidCharacters.

(** The class [[a-zA-Z0-9_\-]]. *)
Definition id_char (c : N) : bool :=
  ((97 <=? c) && (c <=? 122) || (65 <=? c) && (c <=? 90)
   || (48 <=? c) && (c <=? 57) || (c =? 95) || (c =? 45))%N.

(** Between 1 and 50 characters of the class. *)
Definition id_body (s : pystr) : bool :=
  ((1 <=? length s)%nat && (length s <=? 50)%nat && forallb id_char s).

(** [VALID_USER_ID_PATTERN.match(user_id)]: the pattern is anchored at
    both ends, and [$] also matches just before a newline that ends the
    string. *)
Definition VALID_USER_ID_PATTERN_match (s : pystr) : bool :=
  id_body s
  || match last s with
     | Some 10%N => id_body (removelast s)
     | _ => false
     end.

(** [user_id if isinstance(user_id, str) else str(user_id)] *)
Definition as_text (user_id : pyobj) : pystr :=
  match user_id with
  | Str s => s
  | Other _ rendering => rendering
  end.

Section UserId.

(** The characters that [str.isdigit] counts as digits: a table of the
    Unicode database, left abstract. *)
Variable digit_char : N -> bool.

(** [str.isdigit()] *)
Definition isdigit (s : pystr) : bool :=
  negb (length s =? 0)%nat && forallb digit_char s.

(** [UserIdValidator.validate_user_id] *)
Definition validate_user_id (user_id : pyobj) : bool * option user_id_error :=
  let user_id := as_text user_id in
  if (length user_id =? 0)%nat then (false, Some UserIdEmpty)
  else if (50 <? length user_id)%nat then (false, Some UserIdTooLong)
  else if negb (isdigit user_id || VALID_USER_ID_PATTERN_match user_id) then
    (false, Some UserIdInvalidCharacters)
  else (true, None).

End UserId.

(** The ASCII digits, which every digit table contains. *)
Definition ascii_digit (c : N) : bool := ((48 <=? c) && (c <=? 57))%N.

(** A character that [validate_message] lets through. *)
Definition printable (c : N) : Prop :=
  (32 <= c)%N \/ (9 <= c <= 13)%N.

End Messages.

(** ** Observations on runs of the shutdown manager *)

Module ShutdownAux.
Import Shutdown.


(** The handler calls with the way each was made: awaited or not. *)
Fixpoint awaited_calls (evs : list event) : list (string * bool) :=
  match evs with
  | [] => []
  | Call name awaited :: evs' => (name, awaited) :: awaited_calls evs'
  | _ :: evs' => awaited_calls evs'
  end.

(** What the log says of each handler once it was run: completed, or
    failed with an error. *)
Fixpoint reports (evs : list event) : list (string * option exn) :=
  match evs with
  | [] => []
  | Log _ (HandlerCompleted name) :: evs' => (name, None) :: reports evs'
  | Log _ (ErrorInHandler name e) :: evs' => (name, Some e) :: reports evs'
  | _ :: evs' => reports evs'
  end.

(** Timers fire on time and no await raises. *)
Definition punctual (sched : list interference) : Prop :=
  Forall (fun i => late_ms i = 0%N /\ delivered i = None) sched.

(** What a wait on the counter guarantees about time and failures,
    started at clock reading [start] with the schedule [sched]. *)
Definition wait_post (timeout start : Q) (sched : list interference)
    (w' : world) (r : outcome bool) : Prop :=
  (r = Returned false -> (timeout < loop_time w' - start)%Q)
  /\ (forall e, r = Raised e ->
        exists i, In i sched /\ delivered i = Some e)
  /\ (exists n, schedule w' = drop n sched).

(** The same, when timers are punctual: the wait returns, no later than
    [bound]. *)
Definition punctual_post (start bound : Q) (w' : world) (r : outcome bool)
  : Prop :=
  (exists b, r = Returned b)
  /\ (loop_time w' - start <= bound)%Q.

(** A sequence of counting calls that never decrements below the
    operations in flight, [n] being in flight at the start. *)
Fixpoint paired (n : Z) (cs : list counter_call) : Prop :=
  match cs with
  | [] => True
  | Increment :: cs' => paired (n + 1) cs'
  | Decrement :: cs' => 0 < n /\ paired (n - 1) cs'
  end.

(** Starts minus ends. *)
Fixpoint net (cs : list counter_call) : Z :=
  match cs with
  | [] => 0
  | Increment :: cs' => net cs' + 1
  | Decrement :: cs' => net cs' - 1
  end.

(** What is done to a manager before it shuts down. *)
Inductive setup_call :=
| RegisterTask (task : Task)
| RegisterHandler (h : handler)
| Counting (c : counter_call).

Definition setup (w : world) (c : setup_call) : world :=
  match c with
  | RegisterTask task => register_background_task task w
  | RegisterHandler h => register_shutdown_handler h w
  | Counting c => count w c
  end.

Fixpoint registered_tasks (cs : list setup_call) : list Task :=
  match cs with
  | [] => []
  | RegisterTask task :: cs' => task :: registered_tasks cs'
  | _ :: cs' => registered_tasks cs'
  end.

Fixpoint registered_handlers (cs : list setup_call) : list handler :=
  match cs with
  | [] => []
  | RegisterHandler h :: cs' => h :: registered_handlers cs'
  | _ :: cs' => registered_handlers cs'
  end.


(** How [execute_shutdown_handlers] leaves the log and the calls when it
    returns, for the handlers [hs]. *)
Definition reported (hs : list handler) (w w' : world) : Prop :=
  awaited_calls (trace w')
  = awaited_calls (trace w)
    ++ map (fun h => (__name__ h, iscoroutinefunction h)) hs
  /\ map fst (reports (trace w'))
     = map fst (reports (trace w)) ++ map __name__ hs.



End ShutdownAux.

(** ** tests/test_parser_high_issues.py: the reference implementations *)

Module TestSuite.
Import Messages.

(** The [RateLimiter] class of the test suite. *)
Record RateLimiter := mkRateLimiter {
  max_requests : Z;
  window_seconds : Q;
  requests : gmap string (list Q)
}.

(** [RateLimiter.__init__] *)
Definition init (max_requests : Z) (window_seconds : Q) : RateLimiter :=
  {| max_requests := max_requests; window_seconds := window_seconds;
     requests := ∅ |}.

Definition set_requests (user_id : string) (l : list Q) (self : RateLimiter)
  : RateLimiter :=
  {| max_requests := max_requests self;
     window_seconds := window_seconds self;
     requests := <[user_id := l]> (requests self) |}.

(** [self.requests[user_id]] once the key is known to be there. *)
Definition get_requests (self : RateLimiter) (user_id : string) : list Q :=
  default [] (requests self !! user_id).

(** [RateLimiter.check_limit], with the value of [self.current_time()]
    passed in as [current]. *)
Definition check_limit (self : RateLimiter) (user_id : string) (current : Q)
  : RateLimiter * bool :=
  let self :=
    match requests self !! user_id with
    | None => set_requests user_id [] self
    | Some _ => self
    end in
  let window_start := (current - window_seconds self)%Q in
  let self :=
    set_requests user_id
      (List.filter (fun t => Qlt_bool window_start t) (get_requests self user_id))
      self in
  if Z.of_nat (length (get_requests self user_id)) >=? max_requests self then
    (self, false)
  else
    (set_requests user_id (get_requests self user_id ++ [current]) self, true).

(** A sequence of calls, each with its key and its time. *)
Fixpoint run (self : RateLimiter) (cs : list (string * Q))
  : RateLimiter * list bool :=
  match cs with
  | [] => (self, [])
  | (user_id, current) :: cs' =>
      let (self1, b) := check_limit self user_id current in
      let (self2, bs) := run self1 cs' in
      (self2, b :: bs)
  end.

(** The same calls, made on the limiter of [workers/rate_limiter.py]. *)
Definition as_calls (cs : list (string * Q)) : list Limiter.call :=
  map (fun c => Limiter.CheckLimit (fst c) (snd c)) cs.

(** What the production limiter returned where the reference returns a
    [bool]: [None] stands for a call that raised. *)
Definition flag (o : Limiter.observation) : option bool :=
  match o with
  | Limiter.Checked _ _ (Limiter.Return b _) => Some b
  | _ => None
  end.

(** The two limiters hold the same configuration and the same logs. *)
Definition agree (ref : RateLimiter) (self : Limiter.RateLimiter) : Prop :=
  max_requests ref = Limiter.max_requests self
  /\ window_seconds ref = Limiter.window_seconds self
  /\ forall k, get_requests ref k = Limiter.get_requests self k.

(** [TestParserInputValidation.validate_message] *)
Definition validate_message (message : pyobj) : bool :=
  match message with
  | Other _ _ => false
  | Str s =>
      if (length s =? 0)%nat then false
      else if (4000 <? length s)%nat then false
      else if existsb (N.eqb 0) s || existsb (fun c => (c <? 32)%N) s then false
      else
        match strip s with
        | [] => false
        | _ => true
        end
  end.

End TestSuite.

(** * Properties of the rate limiter *)

Section PyNumFacts.

Lemma Qlt_bool_iff (a b : Q) : Qlt_bool a b = true <-> (a < b)%Q.
Proof.
  unfold Qlt_bool. rewrite negb_true_iff.
  split; intros H.
  - apply Qnot_le_lt. intros Hle. apply Qle_bool_iff in Hle. congruence.
  - destruct (Qle_bool b a) eqn:E; [|reflexivity].
    apply Qle_bool_iff in E. lra.
Qed.

Lemma Qlt_bool_false_iff (a b : Q) : Qlt_bool a b = false <-> (b <= a)%Q.
Proof.
  unfold Qlt_bool. rewrite negb_false_iff. apply Qle_bool_iff.
Qed.

End PyNumFacts.

Section RoundUp.


End RoundUp.

Section CheckLimitFacts.
Import Limiter.

Lemma get_requests_set_eq self k l :
  get_requests (set_requests k l self) k = l.
Proof. unfold get_requests, set_requests; cbn. by rewrite lookup_insert_eq. Qed.

Lemma get_requests_set_ne self k k' l :
  k' ≠ k -> get_requests (set_requests k l self) k' = get_requests self k'.
Proof.
  intros Hne. unfold get_requests, set_requests; cbn.
  by rewrite lookup_insert_ne.
Qed.

Lemma get_requests_set_stats self f k :
  get_requests (set_stats f self) k = get_requests self k.
Proof. reflexivity. Qed.

(** [check_limit] with the pruned log named. *)
Lemma check_limit_unfold self k t :
  check_limit self k t =
  let pruned := prune (t - window_seconds self)%Q (get_requests self k) in
  let self1 := set_requests k pruned (set_stats incr_total_checks self) in
  if Z.of_nat (length pruned) >=? max_requests self then
    match py_min pruned with
    | None => (self1, ValueError)
    | Some oldest_request =>
        (set_stats incr_blocked self1,
         Return false
           (RateLimitExceeded k (max_requests self) (window_seconds self)
              (round_up (oldest_request + window_seconds self - t)%Q)))
    end
  else
    let self2 := set_requests k (pruned ++ [t]) self1 in
    (set_stats incr_allowed
       (if Z.of_nat (size (requests self2)) >? users_tracked (stats self2)
        then set_stats (set_users_tracked (Z.of_nat (size (requests self2)))) self2
        else self2),
     Return true (RequestAllowed k)).
Proof. reflexivity. Qed.

(** The log written back by one call, and what the call leaves alone. *)
Lemma check_limit_requests self k t :
  let pruned := prune (t - window_seconds self)%Q (get_requests self k) in
  let self' := fst (check_limit self k t) in
  max_requests self' = max_requests self
  /\ window_seconds self' = window_seconds self
  /\ (forall k', k' ≠ k -> get_requests self' k' = get_requests self k')
  /\ match snd (check_limit self k t) with
     | Return true _ =>
         Z.of_nat (length pruned) < max_requests self
         /\ get_requests self' k = pruned ++ [t]
     | Return false _ =>
         max_requests self <= Z.of_nat (length pruned)
         /\ pruned <> []
         /\ get_requests self' k = pruned
     | ValueError =>
         max_requests self <= Z.of_nat (length pruned)
         /\ pruned = []
         /\ get_requests self' k = pruned
     end.
Proof.
  intros pruned self'. subst self'. rewrite check_limit_unfold.
  cbv zeta. fold pruned.
  destruct (Z.geb_spec (Z.of_nat (length pruned)) (max_requests self))
    as [Hge | Hlt].
  - destruct (py_min pruned) as [oldest|] eqn:Hmin; cbn [fst snd].
    + split; [reflexivity|]. split; [reflexivity|]. split; [|split; [lia|split]].
      * intros k' Hne. unfold get_requests; cbn. by rewrite lookup_insert_ne.
      * intros E. rewrite E in Hmin. discriminate.
      * unfold get_requests; cbn. by rewrite lookup_insert_eq.
    + split; [reflexivity|]. split; [reflexivity|]. split; [|split; [lia|split]].
      * intros k' Hne. unfold get_requests; cbn. by rewrite lookup_insert_ne.
      * destruct pruned; [reflexivity | discriminate].
      * unfold get_requests; cbn. by rewrite lookup_insert_eq.
  - match goal with
    | |- context [if ?b then _ else _] => destruct b
    end; cbn [fst snd max_requests window_seconds set_stats];
    (split; [reflexivity|]; split; [reflexivity|]; split; [|split; [lia|]];
     [ intros k' Hne; unfold get_requests; cbn;
       by rewrite !lookup_insert_ne
     | unfold get_requests; cbn; by rewrite lookup_insert_eq ]).
Qed.

End CheckLimitFacts.

Section SlidingWindow.
Import Limiter.

Lemma filter_length_le {A} (p q : A -> bool) (l : list A) :
  (forall x, p x = true -> q x = true) ->
  (length (List.filter p l) <= length (List.filter q l))%nat.
Proof.
  intros Himp. induction l as [|x l IH]; cbn; [lia|].
  destruct (p x) eqn:Hp.
  - rewrite (Himp x Hp). cbn. lia.
  - destruct (q x); cbn; lia.
Qed.







End SlidingWindow.

Section LimiterClaims.
Import Limiter.

Lemma get_requests_init maxr w k : get_requests (init maxr w) k = [].
Proof. reflexivity. Qed.




(** With a positive limit, [min] is never applied to an empty list. *)
Lemma check_limit_no_error self k t :
  1 <= max_requests self -> snd (check_limit self k t) <> ValueError.
Proof.
  intros Hmax Herr.
  pose proof (check_limit_requests self k t) as Hcl. cbv zeta in Hcl.
  rewrite Herr in Hcl. destruct Hcl as (_ & _ & _ & Hlen & Hnil & _).
  rewrite Hnil in Hlen. cbn in Hlen. lia.
Qed.

Lemma check_limit_stats self k t :
  1 <= max_requests self ->
  stats_consistent (stats self) ->
  stats_consistent (stats (fst (check_limit self k t))).
Proof.
  intros Hmax Hinv.
  pose proof (check_limit_no_error self k t Hmax) as Hne.
  rewrite check_limit_unfold in *. cbv zeta in *.
  unfold stats_consistent in *.
  destruct (_ >=? _).
  - destruct (py_min _); [|contradiction]. cbn. lia.
  - match goal with
    | |- context [if ?b then _ else _] => destruct b
    end; cbn; lia.
Qed.

Lemma check_limit_max_requests self k t :
  max_requests (fst (check_limit self k t)) = max_requests self.
Proof. apply (check_limit_requests self k t). Qed.

Lemma run_stats cs : forall self,
  1 <= max_requests self ->
  stats_consistent (stats self) ->
  stats_consistent (stats (fst (run self cs)))
  /\ Forall snapshot_consistent (snd (run self cs))
  /\ Forall returned (snd (run self cs)).
Proof.
  induction cs as [|c cs IH]; intros self Hmax Hinv; cbn [run].
  - cbn. repeat split; [exact Hinv | constructor | constructor].
  - destruct c as [k t|]; cbn [step].
    + pose proof (check_limit_stats self k t Hmax Hinv) as Hst.
      pose proof (check_limit_max_requests self k t) as Hm.
      pose proof (check_limit_no_error self k t Hmax) as Hne.
      destruct (check_limit self k t) as [self1 r]. cbn [fst snd] in *.
      destruct (IH self1 ltac:(lia) Hst) as (H1 & H2 & H3).
      destruct (run self1 cs) as [self2 os]. cbn [fst snd] in *.
      repeat split; [exact H1 | |].
      * constructor; [exact I | exact H2].
      * constructor; [|exact H3]. destruct r; [exact I | contradiction].
    + destruct (IH self Hmax Hinv) as (H1 & H2 & H3).
      destruct (run self cs) as [self2 os]. cbn [fst snd] in *.
      repeat split; [exact H1 | |].
      * constructor; [exact Hinv | exact H2].
      * constructor; [exact I | exact H3].
Qed.

(** C2. Stats stay consistent: on a limiter built with a positive
    [max_requests], after any sequence of atomic [check_limit] and
    [get_stats] calls (in whatever order the lock serialises them) the
    counters satisfy [allowed + blocked = total_checks]; every snapshot
    that [get_stats] returned along the way satisfies it too, and every
    [check_limit] call returned a decision. *)
Theorem stats_always_consistent (maxr : Z) (w : Q) (cs : list call) :
  1 <= maxr ->
  stats_consistent (stats (fst (run (init maxr w) cs)))
  /\ Forall snapshot_consistent (snd (run (init maxr w) cs))
  /\ Forall returned (snd (run (init maxr w) cs))
  /\ snapshot_consistent (Snapshot (get_stats (fst (run (init maxr w) cs)))).
Proof.
  intros Hmax.
  destruct (run_stats cs (init maxr w) Hmax eq_refl) as (H1 & H2 & H3).
  repeat split; try assumption.
Qed.

Lemma stats_always_consistent_witness :
  let cs := [CheckLimit "u" 0; GetStats; CheckLimit "u" (1#10);
             CheckLimit "u" (2#10); GetStats; CheckLimit "v" (3#10)] in
  1 <= 2
  /\ stats_consistent (stats (fst (run (init 2 1) cs)))
  /\ Forall snapshot_consistent (snd (run (init 2 1) cs)).
Proof.
  intros cs. split; [lia|].
  pose proof (stats_always_consistent 2 1 cs ltac:(lia)) as (H1 & H2 & _).
  split; [exact H1 | exact H2].
Defined.






Lemma run_untouched k cs : forall self,
  ~ In k (call_keys cs) ->
  get_requests (fst (run self cs)) k = get_requests self k
  /\ max_requests (fst (run self cs)) = max_requests self.
Proof.
  induction cs as [|c cs IH]; intros self Hk; cbn [run].
  - split; reflexivity.
  - destruct c as [k' t|]; cbn [step call_keys] in *.
    + pose proof (check_limit_requests self k' t) as Hcl. cbv zeta in Hcl.
      destruct (check_limit self k' t) as [self1 r]. cbn [fst snd] in Hcl.
      destruct Hcl as (Hmax & _ & Hother & _).
      destruct (IH self1) as [H1 H2]; [intros Hin; apply Hk; right; exact Hin|].
      destruct (run self1 cs) as [self2 os]. cbn [fst] in *.
      rewrite H1, H2, Hmax, Hother; [split; reflexivity|].
      intros ->. apply Hk. left. reflexivity.
    + destruct (IH self Hk) as [H1 H2].
      destruct (run self cs) as [self2 os]. cbn [fst] in *.
      split; assumption.
Qed.

(** C10. First request of a new key: on a limiter with
    [max_requests >= 1], after any calls none of which was for [k], the
    first [check_limit] for [k] returns [allowed=True], whatever the
    time of the call. *)
Theorem first_check_allowed (maxr : Z) (w : Q) (cs : list call)
    (k : string) (t : Q) :
  1 <= maxr ->
  ~ In k (call_keys cs) ->
  snd (check_limit (fst (run (init maxr w) cs)) k t)
  = Return true (RequestAllowed k).
Proof.
  intros Hmax Hk.
  destruct (run_untouched k cs (init maxr w) Hk) as [Hlog Hm].
  rewrite get_requests_init in Hlog. cbn in Hm.
  rewrite check_limit_unfold. cbv zeta. rewrite Hlog, Hm. cbn [prune List.filter length].
  destruct (Z.geb_spec (Z.of_nat 0) maxr) as [Hge|Hlt]; [cbn in Hge; lia|].
  reflexivity.
Qed.

Lemma first_check_allowed_witness :
  let cs := [CheckLimit "a" 0; CheckLimit "a" 0; CheckLimit "b" 1] in
  1 <= 1
  /\ ~ In "c" (call_keys cs)
  /\ snd (check_limit (fst (run (init 1 10) cs)) "c" 1)
     = Return true (RequestAllowed "c").
Proof.
  intros cs.
  assert (Hk : ~ In "c" (call_keys cs)).
  { cbn. intros [H | [H | [H | []]]]; discriminate. }
  split; [lia|]. split; [exact Hk|].
  apply (first_check_allowed 1 10 cs "c" 1); [lia | exact Hk].
Defined.

(** The example of the specification: five immediate calls pass, the
    sixth is denied with a hint of one second. *)
Example five_then_denied :
  snd (run (init 5 1) (repeat (CheckLimit "user123" 0) 6))
  = repeat (Checked "user123" 0 (Return true (RequestAllowed "user123"))) 5
    ++ [Checked "user123" 0
          (Return false (RateLimitExceeded "user123" 5 1 1))].
Proof. vm_compute. reflexivity. Qed.

(** A timestamp exactly [window_seconds] old is pruned: with a limit of
    one, calls at times 0 and 1 are both granted. *)
Example boundary_tie_pruned :
  allowed_times "u"
    (snd (run (init 1 1) [CheckLimit "u" 0; CheckLimit "u" 1]))
  = [0%Q; 1%Q].
Proof. vm_compute. reflexivity. Qed.

(** Outside the validated range: with [max_requests = 0] the first call
    reaches [min([])]. *)
Example zero_limit_raises :
  snd (check_limit (init 0 1) "u" 0) = ValueError
  /\ total_checks (stats (fst (check_limit (init 0 1) "u" 0))) = 1.
Proof. vm_compute. split; reflexivity. Qed.

End LimiterClaims.

(** * Properties of the configuration validator *)

Section ValidatorClaims.
Import Validators.


Lemma positive_int_test v :
  negb (isinstance_int v) || le_int v 0 = false
  <-> exists z, as_int v = Some z /\ 0 < z.
Proof.
  unfold le_int.
  destruct v as [z|b|x|s|]; cbn; split;
    try discriminate; try (intros (z' & [=] & _); fail).
  - intros H. exists z. split; [reflexivity | lia].
  - intros (z' & [= <-] & Hz). lia.
  - intros H. eexists. split; [reflexivity | destruct b; cbn in *; lia].
  - intros (z' & [= <-] & Hz). destruct b; cbn in *; lia.
Qed.



End ValidatorClaims.

(** * Properties of the shutdown manager *)

Section CoroutineRules.
Import Shutdown.

Context {A B : Type}.

Lemma wp_mono (m : M A) (Q Q' : world -> outcome A -> Prop) w :
  wp m Q w -> (forall w' r, Q w' r -> Q' w' r) -> wp m Q' w.
Proof. intros (w' & r & Hm & HQ) Himp. exists w', r. auto. Qed.

Lemma wp_ret (a : A) (Q : world -> outcome A -> Prop) w :
  Q w (Returned a) -> wp (ret a) Q w.
Proof. intros HQ. exists w, (Returned a). auto. Qed.

Lemma wp_bind (m : M A) (f : A -> M B) (Q : world -> outcome B -> Prop) w :
  wp m (fun w' r => match r with
                    | Returned a => wp (f a) Q w'
                    | Raised e => Q w' (Raised e)
                    end) w ->
  wp (bind m f) Q w.
Proof.
  intros (w' & r & Hm & HQ). unfold wp, bind. rewrite Hm.
  destruct r as [a|e]; [exact HQ | eauto].
Qed.

Lemma wp_try_except (m : M A) (h : exn -> M A)
    (Q : world -> outcome A -> Prop) w :
  wp m (fun w' r => match r with
                    | Returned a => Q w' (Returned a)
                    | Raised e =>
                        if isinstance_Exception e then wp (h e) Q w'
                        else Q w' (Raised e)
                    end) w ->
  wp (try_except m h) Q w.
Proof.
  intros (w' & r & Hm & HQ). unfold wp, try_except. rewrite Hm.
  destruct r as [a|e]; [eauto|].
  destruct (isinstance_Exception e); [exact HQ | eauto].
Qed.


End CoroutineRules.

Section CoroutineSteps.
Import Shutdown.

Lemma wp_modify (f : world -> world) (Q : world -> outcome unit -> Prop) w :
  Q (f w) (Returned tt) -> wp (modify f) Q w.
Proof. intros HQ. exists (f w), (Returned tt). auto. Qed.

Lemma wp_logger lvl msg (Q : world -> outcome unit -> Prop) w :
  Q (emit [Log lvl msg] w) (Returned tt) -> wp (logger lvl msg) Q w.
Proof. apply wp_modify. Qed.

Lemma wp_sleep d (Q : world -> outcome unit -> Prop) w :
  (forall r, Q (resume_after d w) r) -> wp (sleep d) Q w.
Proof.
  intros HQ. unfold wp, sleep.
  destruct (delivered _); eauto.
Qed.


Lemma evolves_trans w1 w2 w3 : evolves w1 w2 -> evolves w2 w3 -> evolves w1 w3.
Proof.
  intros [H1 F1] [H2 F2]. split; [congruence|].
  intros Hc. destruct (F1 Hc) as [E1 Hc2]. destruct (F2 Hc2) as [E2 Hc3].
  split; [congruence | exact Hc3].
Qed.

Lemma evolves_emit evs w : evolves w (emit evs w).
Proof. split; auto. Qed.



Lemma evolves_resume_after d w : evolves w (resume_after d w).
Proof.
  split; [reflexivity|]. intros [Hh Hs]. unfold resume_after. cbn.
  destruct (schedule w) as [|i sched]; cbn.
  - split; [reflexivity|]. split; [exact Hh | constructor].
  - apply Forall_cons in Hs as [Hi Hs].
    split; [apply Hi|]. split; [exact Hh | exact Hs].
Qed.

Lemma calls_app evs1 evs2 : calls (evs1 ++ evs2) = calls evs1 ++ calls evs2.
Proof.
  induction evs1 as [|ev evs1 IH]; [reflexivity|].
  destruct ev; cbn; rewrite IH; reflexivity.
Qed.

Lemma calls_emit_log lvl msg w :
  calls (trace (emit [Log lvl msg] w)) = calls (trace w).
Proof. cbn. rewrite calls_app. cbn. apply app_nil_r. Qed.

Lemma loop_time_resume_after d w :
  (loop_time w + d <= loop_time (resume_after d w))%Q.
Proof.
  unfold resume_after. cbn.
  set (late := late_ms (hd idle (schedule w))).
  assert (H : (0 <= inject_Z (Z.of_N late) / 1000)%Q).
  { apply Qle_shift_div_l; [reflexivity|].
    unfold Qle, inject_Z. cbn. lia. }
  lra.
Qed.

End CoroutineSteps.

Section DrainWait.
Import Shutdown.

Lemma drain_post_trans w w1 w2 r :
  evolves w w1 -> calls (trace w1) = calls (trace w) ->
  drain_post w1 w2 r -> drain_post w w2 r.
Proof.
  intros He Hc (He' & Hc' & Hr). split; [|split].
  - eapply evolves_trans; eassumption.
  - congruence.
  - exact Hr.
Qed.

(** The polling loop ends within the iterations it is given, as each
    sleep moves the clock on by at least a tenth of a second. *)
Lemma poll_spec timeout start n : forall w,
  ((timeout - (loop_time w - start)) * 10 < inject_Z (Z.of_nat n))%Q ->
  wp (poll (S n) timeout start) (drain_post w) w.
Proof.
  induction n as [|n IH]; intros w Hfuel; unfold wp; cbn [poll]; cbv beta;
    destruct (Z.gtb_spec (pending_operations w) 0) as [Hpos | Hzero].
  - destruct (Qlt_bool timeout (loop_time w - start)) eqn:Hel.
    + apply wp_bind, wp_logger, wp_ret.
      split; [apply evolves_emit|]. split; [apply calls_emit_log|]. cbn. lia.
    + apply Qlt_bool_false_iff in Hel.
      change (inject_Z (Z.of_nat 0)) with 0%Q in Hfuel. lra.
  - apply wp_bind, wp_logger, wp_ret.
    split; [apply evolves_emit|]. split; [apply calls_emit_log|]. cbn. lia.
  - destruct (Qlt_bool timeout (loop_time w - start)) eqn:Hel.
    + apply wp_bind, wp_logger, wp_ret.
      split; [apply evolves_emit|]. split; [apply calls_emit_log|]. cbn. lia.
    + apply Qlt_bool_false_iff in Hel.
      apply wp_bind, wp_logger, wp_bind, wp_sleep.
      set (w1 := emit [Log DEBUG (WaitingFor (pending_operations w))] w).
      assert (He : evolves w (resume_after (1#10) w1)).
      { eapply evolves_trans; [apply evolves_emit | apply evolves_resume_after]. }
      assert (Hc : calls (trace (resume_after (1#10) w1)) = calls (trace w)).
      { unfold resume_after. cbn. rewrite calls_app. cbn. apply app_nil_r. }
      intros [[]|e].
      * eapply wp_mono; [apply IH|].
        -- pose proof (loop_time_resume_after (1#10) w1) as Ht.
           change (loop_time w1) with (loop_time w) in Ht.
           rewrite Nat2Z.inj_succ in Hfuel. unfold Z.succ in Hfuel.
           rewrite inject_Z_plus in Hfuel.
           change (inject_Z 1) with 1%Q in Hfuel. lra.
        -- intros w' r. apply drain_post_trans; assumption.
      * split; [exact He|]. split; [exact Hc | exact I].
  - apply wp_bind, wp_logger, wp_ret.
    split; [apply evolves_emit|]. split; [apply calls_emit_log|]. cbn. lia.
Qed.

Lemma poll_bound_enough timeout :
  (timeout * 10 < inject_Z (Z.of_nat (Z.to_nat (Qfloor (timeout * 10) + 1))))%Q.
Proof.
  pose proof (Qlt_floor (timeout * 10)) as Hfl.
  assert (Hz : Qfloor (timeout * 10) + 1
               <= Z.of_nat (Z.to_nat (Qfloor (timeout * 10) + 1))) by lia.
  rewrite Zle_Qle in Hz. lra.
Qed.

(** [wait_for_pending_operations] always comes back, within its bound. *)
Lemma wait_for_pending_operations_spec timeout w :
  wp (wait_for_pending_operations timeout) (drain_post w) w.
Proof.
  unfold wait_for_pending_operations, poll_bound.
  apply poll_spec.
  pose proof (poll_bound_enough timeout). lra.
Qed.

End DrainWait.

Section CancelTasks.
Import Shutdown.



Lemma calls_resume_after d w : calls (trace (resume_after d w)) = calls (trace w).
Proof. reflexivity. Qed.


End CancelTasks.

Section Handlers.
Import Shutdown.

Lemma wp_invoke h awaited (Q : world -> outcome unit -> Prop) w :
  Q (put_view (fst (body h (get_view w)))
              (emit [Call (__name__ h) awaited] w))
    (snd (body h (get_view w))) ->
  wp (invoke h awaited) Q w.
Proof.
  intros HQ. unfold wp, invoke.
  destruct (body h (get_view w)) as [v r]. eauto.
Qed.






End Handlers.

Section GracefulShutdown.
Import Shutdown.





End GracefulShutdown.

Section ShutdownClaims.
Import Shutdown Scenarios.

Lemma count_nonneg w c :
  0 <= pending_operations w -> 0 <= pending_operations (count w c).
Proof.
  intros H. destruct c; cbn.
  - lia.
  - unfold decrement_pending_operations.
    destruct (Z.gtb_spec (pending_operations w) 0); cbn; lia.
Qed.

Lemma counting_nonneg cs : forall w,
  0 <= pending_operations w ->
  0 <= pending_operations (fold_left count cs w).
Proof.
  induction cs as [|c cs IH]; intros w H; cbn; [exact H|].
  apply IH, count_nonneg, H.
Qed.

(** C9. The counter of pending operations is never negative, whatever
    the sequence of increments and decrements made on a new manager, and
    a decrement at zero changes nothing. *)
Theorem pending_operations_nonneg (now : Q) (sched : list interference)
    (cs : list counter_call) :
  0 <= pending_operations (fold_left count cs (init now sched))
  /\ (forall w, pending_operations w = 0 ->
                decrement_pending_operations w = w).
Proof.
  split.
  - apply counting_nonneg. cbn. lia.
  - intros w Hz. unfold decrement_pending_operations. rewrite Hz.
    reflexivity.
Qed.

Lemma pending_operations_nonneg_witness :
  pending_operations (init 0 []) = 0
  /\ decrement_pending_operations (init 0 []) = init 0 []
  /\ 0 <= pending_operations
            (fold_left count [Decrement; Increment; Decrement; Decrement]
               (init 0 [])).
Proof.
  destruct (pending_operations_nonneg
              0 [] [Decrement; Increment; Decrement; Decrement])
    as [Hnn Hdec].
  split; [reflexivity|]. split; [apply Hdec; reflexivity | exact Hnn].
Defined.







(** An [Exception] raised in the drain wait is logged by
    [graceful_shutdown] and the call returns normally. *)
Example failing_await_is_logged :
  match graceful_shutdown (failing_await (Exception_ "loop error")) with
  | Some (w', r) =>
      r = Returned tt
      /\ _shutting_down w' = false
      /\ trace w'
         = [Log INFO StartingShutdown; Log DEBUG NoShutdownHandlers;
            Log DEBUG (WaitingFor 1);
            Log ERROR (ErrorDuringShutdown (Exception_ "loop error"))]
  | None => False
  end.
Proof. vm_compute. repeat split; reflexivity. Qed.

(** A cancellation of the shutdown coroutine itself is not an
    [Exception]: it passes through, after the [finally] clause. *)
Example cancellation_passes_through :
  match graceful_shutdown (failing_await (BaseException_ "CancelledError")) with
  | Some (w', r) =>
      r = Raised (BaseException_ "CancelledError")
      /\ _shutting_down w' = false
  | None => False
  end.
Proof. vm_compute. repeat split; reflexivity. Qed.

(** A task that does not honour cancellation is left running: the wait
    times out, the timeout is logged and the shutdown completes. *)
Example uncooperative_task_times_out :
  match graceful_shutdown two_tasks with
  | Some (w', r) =>
      r = Returned tt
      /\ map (fun t => (get_name t, done t)) (background_tasks w')
         = [("flusher"%string, true); ("poller"%string, false)]
      /\ status_active_tasks (get_status w') = 1%nat
      /\ nth_error (rev (trace w')) 1 = Some (Log ERROR (TimeoutCancelling 10))
  | None => False
  end.
Proof. vm_compute. repeat split; reflexivity. Qed.









End ShutdownClaims.

(** * Further properties of the rate limiter *)

Section LimiterCounters.
Import Limiter LimiterAux.

Lemma check_limit_counts self k t :
  let self' := fst (check_limit self k t) in
  total_checks (stats self') = total_checks (stats self) + 1
  /\ match snd (check_limit self k t) with
     | Return true _ =>
         allowed (stats self') = allowed (stats self) + 1
         /\ blocked (stats self') = blocked (stats self)
     | Return false _ =>
         allowed (stats self') = allowed (stats self)
         /\ blocked (stats self') = blocked (stats self) + 1
     | ValueError =>
         allowed (stats self') = allowed (stats self)
         /\ blocked (stats self') = blocked (stats self)
     end.
Proof.
  rewrite check_limit_unfold. cbv zeta.
  destruct (_ >=? _).
  - destruct (py_min _); cbn; auto.
  - match goal with
    | |- context [if ?b then _ else _] => destruct b
    end; cbn; auto.
Qed.

Lemma run_counts cs : forall self,
  let self' := fst (run self cs) in
  let os := snd (run self cs) in
  total_checks (stats self') = total_checks (stats self) + count_checks os
  /\ allowed (stats self') = allowed (stats self) + count_returned true os
  /\ blocked (stats self') = blocked (stats self) + count_returned false os.
Proof.
  induction cs as [|c cs IH]; intros self; cbn [run].
  - cbn. lia.
  - destruct c as [k t|]; cbn [step].
    + pose proof (check_limit_counts self k t) as Hc. cbv zeta in Hc.
      destruct (check_limit self k t) as [self1 r]. cbn [fst snd] in Hc.
      specialize (IH self1). cbv zeta in IH.
      destruct (run self1 cs) as [self2 os]. cbn [fst snd] in *.
      destruct Hc as [Ht Hc].
      destruct r as [[|] msg|]; cbn [count_checks count_returned Bool.eqb];
        lia.
    + specialize (IH self). cbv zeta in IH.
      destruct (run self cs) as [self2 os]. cbn [fst snd] in *.
      cbn [count_checks count_returned]. lia.
Qed.

(** X1. The counters count: on a new limiter, whatever its configuration,
    [total_checks] is the number of [check_limit] calls made, [allowed]
    the number that returned [True] and [blocked] the number that
    returned [False]. *)
Theorem stats_count_calls (maxr : Z) (w : Q) (cs : list call) :
  let self' := fst (run (init maxr w) cs) in
  let os := snd (run (init maxr w) cs) in
  total_checks (stats self') = count_checks os
  /\ allowed (stats self') = count_returned true os
  /\ blocked (stats self') = count_returned false os.
Proof.
  pose proof (run_counts cs (init maxr w)) as H. cbn in H. exact H.
Qed.

End LimiterCounters.

Section LimiterKeys.
Import Limiter LimiterAux.

Lemma check_limit_dom self k t :
  dom (requests (fst (check_limit self k t))) = {[k]} ∪ dom (requests self).
Proof.
  rewrite check_limit_unfold. cbv zeta.
  destruct (_ >=? _).
  - destruct (py_min _); cbn; rewrite dom_insert_L; reflexivity.
  - match goal with
    | |- context [if ?b then _ else _] => destruct b
    end; cbn; rewrite !dom_insert_L; set_solver.
Qed.

Lemma run_dom cs : forall self,
  dom (requests (fst (run self cs))) = distinct_keys cs ∪ dom (requests self).
Proof.
  unfold distinct_keys.
  induction cs as [|c cs IH]; intros self; cbn [run call_keys].
  - cbn. set_solver.
  - destruct c as [k t|]; cbn [step].
    + pose proof (check_limit_dom self k t) as Hd.
      destruct (check_limit self k t) as [self1 r]. cbn [fst] in Hd.
      specialize (IH self1).
      destruct (run self1 cs) as [self2 os]. cbn [fst] in *.
      rewrite IH, Hd. cbn. set_solver.
    + specialize (IH self).
      destruct (run self cs) as [self2 os]. cbn [fst] in *. exact IH.
Qed.

Lemma size_insert_ge (m : gmap string (list Q)) k l :
  (size m <= size (<[k:=l]> m))%nat.
Proof. rewrite map_size_insert. destruct (m !! k); cbn; lia. Qed.

(** With a positive limit, [users_tracked] keeps up with the dictionary. *)
Lemma check_limit_users_tracked self k t :
  1 <= max_requests self ->
  users_tracked (stats self) = Z.of_nat (size (requests self)) ->
  let self' := fst (check_limit self k t) in
  users_tracked (stats self') = Z.of_nat (size (requests self')).
Proof.
  intros Hmax Hinv.
  rewrite check_limit_unfold. cbv zeta.
  set (pruned := prune _ _).
  destruct (Z.geb_spec (Z.of_nat (length pruned)) (max_requests self))
    as [Hge | Hlt].
  - assert (Hsome : is_Some (requests self !! k)).
    { destruct (requests self !! k) as [l|] eqn:Hl; [eauto|].
      unfold pruned, get_requests in Hge. rewrite Hl in Hge. cbn in Hge. lia. }
    destruct (py_min pruned); cbn;
      rewrite map_size_insert_Some by exact Hsome; exact Hinv.
  - match goal with
    | |- context [if ?b then _ else _] => destruct b eqn:Hb
    end; cbn in *; [reflexivity|].
    rewrite Z.gtb_ltb, Z.ltb_ge in Hb.
    pose proof (size_insert_ge (requests self) k pruned) as H1.
    pose proof (size_insert_ge (<[k:=pruned]> (requests self)) k
                  (pruned ++ [t])) as H2.
    lia.
Qed.

Lemma run_users_tracked cs : forall self,
  1 <= max_requests self ->
  users_tracked (stats self) = Z.of_nat (size (requests self)) ->
  users_tracked (stats (fst (run self cs)))
  = Z.of_nat (size (requests (fst (run self cs)))).
Proof.
  induction cs as [|c cs IH]; intros self Hmax Hinv; cbn [run].
  - exact Hinv.
  - destruct c as [k t|]; cbn [step].
    + pose proof (check_limit_users_tracked self k t Hmax Hinv) as Hu.
      pose proof (check_limit_max_requests self k t) as Hm.
      destruct (check_limit self k t) as [self1 r]. cbn [fst] in *.
      specialize (IH self1 ltac:(lia) Hu).
      destruct (run self1 cs) as [self2 os]. exact IH.
    + specialize (IH self Hmax Hinv).
      destruct (run self cs) as [self2 os]. exact IH.
Qed.

(** X2. The number of users: on a new limiter with a positive limit, after
    any calls, [users_tracked] and the [users] entry of [get_stats] both
    equal the number of distinct keys that were checked; no key is ever
    dropped from the dictionary. *)
Theorem users_count_distinct_keys (maxr : Z) (w : Q) (cs : list call) :
  1 <= maxr ->
  let self' := fst (run (init maxr w) cs) in
  dom (requests self') = distinct_keys cs
  /\ snap_users (get_stats self') = Z.of_nat (size (distinct_keys cs))
  /\ users_tracked (stats self') = Z.of_nat (size (distinct_keys cs)).
Proof.
  intros Hmax self'. subst self'.
  pose proof (run_dom cs (init maxr w)) as Hd.
  assert (Hdom : dom (requests (fst (run (init maxr w) cs))) = distinct_keys cs).
  { rewrite Hd. cbn. rewrite dom_empty_L. set_solver. }
  assert (Hsize : size (requests (fst (run (init maxr w) cs)))
                  = size (distinct_keys cs)).
  { rewrite <- Hdom. symmetry. apply size_dom. }
  split; [exact Hdom|]. split.
  - cbn. rewrite Hsize. reflexivity.
  - rewrite (run_users_tracked cs (init maxr w) Hmax eq_refl), Hsize.
    reflexivity.
Qed.

Lemma users_count_distinct_keys_witness :
  let cs := [CheckLimit "a" 0; CheckLimit "b" 0; CheckLimit "a" 0;
             CheckLimit "a" 0; GetStats; CheckLimit "c" 1] in
  1 <= 2
  /\ snap_users (get_stats (fst (run (init 2 1) cs))) = 3.
Proof.
  intros cs. split; [lia|].
  destruct (users_count_distinct_keys 2 1 cs ltac:(lia)) as (_ & Hu & _).
  rewrite Hu. vm_compute. reflexivity.
Defined.

End LimiterKeys.

Section LimiterLogs.
Import Limiter LimiterAux.

Lemma prune_length_le x l : (length (prune x l) <= length l)%nat.
Proof.
  unfold prune. induction l as [|u l IH]; cbn; [lia|].
  destruct (Qlt_bool x u); cbn; lia.
Qed.

Lemma check_limit_log_bound self k t :
  (forall k', Z.of_nat (length (get_requests self k')) <= max_requests self) ->
  forall k', Z.of_nat (length (get_requests (fst (check_limit self k t)) k'))
             <= max_requests self.
Proof.
  intros Hinv k'.
  pose proof (check_limit_requests self k t) as Hcl. cbv zeta in Hcl.
  destruct Hcl as (_ & _ & Hother & Hcase).
  destruct (String.eqb_spec k' k) as [-> | Hne]; [|rewrite Hother by exact Hne; apply Hinv].
  pose proof (prune_length_le (t - window_seconds self)%Q (get_requests self k)).
  specialize (Hinv k).
  destruct (snd (check_limit self k t)) as [[|] msg|].
  - destruct Hcase as [Hlt ->]. rewrite length_app. cbn. lia.
  - destruct Hcase as (_ & _ & ->). lia.
  - destruct Hcase as (_ & _ & ->). lia.
Qed.

Lemma run_log_bound cs : forall self,
  (forall k, Z.of_nat (length (get_requests self k)) <= max_requests self) ->
  forall k, Z.of_nat (length (get_requests (fst (run self cs)) k))
            <= max_requests self.
Proof.
  induction cs as [|c cs IH]; intros self Hinv; cbn [run]; [exact Hinv|].
  destruct c as [k t|]; cbn [step].
  - pose proof (check_limit_log_bound self k t Hinv) as Hb.
    pose proof (check_limit_max_requests self k t) as Hm.
    destruct (check_limit self k t) as [self1 r]. cbn [fst] in *.
    rewrite <- Hm in Hb. specialize (IH self1 Hb). rewrite Hm in IH.
    destruct (run self1 cs) as [self2 os]. exact IH.
  - specialize (IH self Hinv).
    destruct (run self cs) as [self2 os]. exact IH.
Qed.

(** X3. Memory per key is bounded: on a new limiter with [max_requests >= 0],
    after any calls, at any times, the log kept for a key never holds
    more than [max_requests] timestamps. *)
Theorem log_length_bounded (maxr : Z) (w : Q) (cs : list call) (k : string) :
  0 <= maxr ->
  Z.of_nat (length (get_requests (fst (run (init maxr w) cs)) k)) <= maxr.
Proof.
  intros Hmax.
  apply (run_log_bound cs (init maxr w)).
  intros k'. rewrite get_requests_init. cbn. exact Hmax.
Qed.

Lemma log_length_bounded_witness :
  0 <= 2
  /\ Z.of_nat (length (get_requests
                         (fst (run (init 2 1)
                                 [CheckLimit "u" 0; CheckLimit "u" 0;
                                  CheckLimit "u" 0; CheckLimit "u" (1#2)]))
                         "u")) <= 2.
Proof.
  split; [lia|]. apply log_length_bounded. lia.
Defined.

Lemma nondecreasing_prune x l : nondecreasing l -> nondecreasing (prune x l).
Proof.
  unfold prune. induction l as [|u l IH]; cbn; [auto|].
  intros [Hall Hnd]. destruct (Qlt_bool x u); cbn; [|auto].
  split; [|auto].
  rewrite List.Forall_forall in *. intros v Hv.
  apply List.filter_In in Hv as [Hv _]. auto.
Qed.

Lemma nondecreasing_snoc l t :
  nondecreasing l -> Forall (fun u => (u <= t)%Q) l -> nondecreasing (l ++ [t]).
Proof.
  induction l as [|u l IH]; cbn; [intros; split; [constructor | exact I]|].
  intros [Hall Hnd] Hle. apply Forall_cons in Hle as [Hu Hle].
  split; [|auto].
  apply Forall_app. split; [exact Hall | constructor; [exact Hu | constructor]].
Qed.

Lemma Forall_prune (P : Q -> Prop) x l : Forall P l -> Forall P (prune x l).
Proof.
  unfold prune. rewrite !List.Forall_forall. intros H v Hv.
  apply List.filter_In in Hv as [Hv _]. auto.
Qed.

(** On a sorted log [min] finds the first entry. *)
Lemma py_min_sorted l : nondecreasing l -> py_min l = head l.
Proof.
  destruct l as [|t l]; [reflexivity|]. cbn. intros [Hall _]. f_equal.
  induction l as [|u l IH]; cbn; [reflexivity|].
  apply Forall_cons in Hall as [Hu Hall].
  assert (E : Qlt_bool u t = false) by (apply Qlt_bool_false_iff; exact Hu).
  rewrite E. apply IH, Hall.
Qed.

Lemma run_sorted cs : forall self T,
  (forall k, nondecreasing (get_requests self k)
             /\ Forall (fun u => (u <= T)%Q) (get_requests self k)) ->
  Forall (Qle T) (call_times cs) ->
  nondecreasing (call_times cs) ->
  forall k, nondecreasing (get_requests (fst (run self cs)) k).
Proof.
  induction cs as [|c cs IH]; intros self T Hinv HT Hnd; cbn [run].
  - intros k. apply Hinv.
  - destruct c as [k t|]; cbn [step call_times] in *.
    + apply Forall_cons in HT as [HTt HT]. destruct Hnd as [Hall Hnd].
      pose proof (check_limit_requests self k t) as Hcl. cbv zeta in Hcl.
      destruct (check_limit self k t) as [self1 r]. cbn [fst snd] in Hcl.
      destruct Hcl as (_ & _ & Hother & Hcase).
      specialize (IH self1 t).
      destruct (run self1 cs) as [self2 os]. cbn [fst] in *.
      apply IH; [|exact Hall|exact Hnd].
      intros k'. destruct (String.eqb_spec k' k) as [-> | Hne].
      * destruct (Hinv k) as [Hs Hle].
        assert (Hle' : Forall (fun u => (u <= t)%Q) (get_requests self k)).
        { eapply Forall_impl; [exact Hle|]. cbn. intros u Hu. lra. }
        destruct r as [[|] msg|].
        -- destruct Hcase as [_ ->]. split.
           ++ apply nondecreasing_snoc;
                [apply nondecreasing_prune, Hs | apply Forall_prune, Hle'].
           ++ apply Forall_app. split; [apply Forall_prune, Hle'|].
              constructor; [lra | constructor].
        -- destruct Hcase as (_ & _ & ->).
           split; [apply nondecreasing_prune, Hs | apply Forall_prune, Hle'].
        -- destruct Hcase as (_ & _ & ->).
           split; [apply nondecreasing_prune, Hs | apply Forall_prune, Hle'].
      * rewrite Hother by exact Hne. destruct (Hinv k') as [Hs Hle].
        split; [exact Hs|].
        eapply Forall_impl; [exact Hle|]. cbn. intros u Hu. lra.
    + specialize (IH self T Hinv HT Hnd).
      destruct (run self cs) as [self2 os]. exact IH.
Qed.

(** X4. Logs stay in time order: when the clock never goes back, every key's
    log is sorted, oldest first, after any calls on a new limiter, so the
    oldest request that [min] looks for is the first entry of the log. *)
Theorem logs_sorted (maxr : Z) (w : Q) (cs : list call) (k : string) :
  nondecreasing (call_times cs) ->
  let log := get_requests (fst (run (init maxr w) cs)) k in
  nondecreasing log /\ py_min log = head log.
Proof.
  intros Hnd log.
  assert (Hs : nondecreasing log).
  { apply (run_sorted cs (init maxr w) (hd 0%Q (call_times cs))).
    - intros k'. rewrite get_requests_init. split; [exact I | constructor].
    - destruct (call_times cs) as [|t0 ts]; [constructor|].
      cbn. constructor; [lra | apply Hnd].
    - exact Hnd. }
  split; [exact Hs | apply py_min_sorted, Hs].
Qed.

Lemma logs_sorted_witness :
  let cs := [CheckLimit "u" 0; CheckLimit "u" (1#4); CheckLimit "v" (1#4);
             CheckLimit "u" (1#2); CheckLimit "u" (5#4)] in
  nondecreasing (call_times cs)
  /\ py_min (get_requests (fst (run (init 3 1) cs)) "u")
     = head (get_requests (fst (run (init 3 1) cs)) "u").
Proof.
  intros cs.
  assert (Hnd : nondecreasing (call_times cs)).
  { cbn. repeat split; repeat constructor; unfold Qle; cbn; lia. }
  split; [exact Hnd|]. apply (logs_sorted 3 1 cs "u" Hnd).
Defined.

(** X5. A quiet window readmits: in any state of a limiter with a positive
    limit, a call made when every logged request of the key is at least
    [window_seconds] old is allowed, and the key's log restarts from that
    call alone. *)
Theorem allowed_after_quiet_window (self : RateLimiter) (k : string) (t : Q) :
  1 <= max_requests self ->
  Forall (fun u => (u + window_seconds self <= t)%Q) (get_requests self k) ->
  snd (check_limit self k t) = Return true (RequestAllowed k)
  /\ get_requests (fst (check_limit self k t)) k = [t].
Proof.
  intros Hmax Hold.
  assert (Hpr : prune (t - window_seconds self)%Q (get_requests self k) = []).
  { unfold prune. induction Hold as [|u l Hu Hold IH]; cbn; [reflexivity|].
    assert (E : Qlt_bool (t - window_seconds self) u = false)
      by (apply Qlt_bool_false_iff; lra).
    rewrite E. exact IH. }
  pose proof (check_limit_requests self k t) as Hcl. cbv zeta in Hcl.
  rewrite Hpr in Hcl. destruct Hcl as (_ & _ & _ & Hcase).
  rewrite check_limit_unfold in *. cbv zeta in *. rewrite Hpr in *.
  cbn [length] in *.
  destruct (Z.geb_spec (Z.of_nat 0) (max_requests self)) as [Hge|Hlt];
    [cbn in Hge; lia|].
  cbn [fst snd] in *. split; [reflexivity | apply Hcase].
Qed.

Lemma allowed_after_quiet_window_witness :
  let self := fst (run (init 1 2) [CheckLimit "u" 0; CheckLimit "u" 1]) in
  1 <= max_requests self
  /\ Forall (fun u => (u + window_seconds self <= 2)%Q) (get_requests self "u")
  /\ snd (check_limit self "u" 2) = Return true (RequestAllowed "u").
Proof.
  intros self.
  assert (Hold : Forall (fun u => (u + window_seconds self <= 2)%Q)
                        (get_requests self "u")).
  { vm_compute. repeat constructor. discriminate. }
  split; [vm_compute; discriminate|]. split; [exact Hold|].
  apply (allowed_after_quiet_window self "u" 2);
    [vm_compute; discriminate | exact Hold].
Defined.

End LimiterLogs.

Section LimiterRetry.
Import Limiter LimiterAux.





End LimiterRetry.

Section LimiterIsolation.
Import Limiter LimiterAux.

(** A call only looks at the configuration and at its own key's log. *)
Lemma check_limit_same_log s1 s2 k t :
  get_requests s1 k = get_requests s2 k ->
  max_requests s1 = max_requests s2 ->
  window_seconds s1 = window_seconds s2 ->
  snd (check_limit s1 k t) = snd (check_limit s2 k t)
  /\ get_requests (fst (check_limit s1 k t)) k
     = get_requests (fst (check_limit s2 k t)) k.
Proof.
  intros Hlog Hmax Hwin.
  pose proof (check_limit_requests s1 k t) as H1.
  pose proof (check_limit_requests s2 k t) as H2.
  cbv zeta in H1, H2.
  destruct H1 as (_ & _ & _ & H1). destruct H2 as (_ & _ & _ & H2).
  assert (Hres : snd (check_limit s1 k t) = snd (check_limit s2 k t)).
  { rewrite !check_limit_unfold. cbv zeta. rewrite Hlog, Hmax, Hwin.
    destruct (_ >=? _); [destruct (py_min _)|]; reflexivity. }
  split; [exact Hres|].
  rewrite Hres in H1. rewrite Hlog, Hwin in H1.
  destruct (snd (check_limit s2 k t)) as [[|] msg|].
  - destruct H1 as [_ ->]. destruct H2 as [_ ->]. reflexivity.
  - destruct H1 as (_ & _ & ->). destruct H2 as (_ & _ & ->). reflexivity.
  - destruct H1 as (_ & _ & ->). destruct H2 as (_ & _ & ->). reflexivity.
Qed.

Lemma run_for_key k cs : forall s1 s2,
  get_requests s1 k = get_requests s2 k ->
  max_requests s1 = max_requests s2 ->
  window_seconds s1 = window_seconds s2 ->
  decisions k (snd (run s1 cs)) = decisions k (snd (run s2 (for_key k cs))).
Proof.
  induction cs as [|c cs IH]; intros s1 s2 Hlog Hmax Hwin; [reflexivity|].
  destruct c as [k' t|]; cbn [run step for_key].
  - pose proof (check_limit_requests s1 k' t) as H1. cbv zeta in H1.
    destruct H1 as (Hm1 & Hw1 & Hother & _).
    destruct (String.eqb_spec k' k) as [-> | Hne].
    + cbn [run step].
      destruct (check_limit_same_log s1 s2 k t Hlog Hmax Hwin) as [Hr Hl].
      pose proof (check_limit_requests s2 k t) as H2. cbv zeta in H2.
      destruct H2 as (Hm2 & Hw2 & _).
      destruct (check_limit s1 k t) as [s1' r1].
      destruct (check_limit s2 k t) as [s2' r2]. cbn [fst snd] in *.
      specialize (IH s1' s2' Hl ltac:(congruence) ltac:(congruence)).
      destruct (run s1' cs) as [s1'' os1].
      destruct (run s2' (for_key k cs)) as [s2'' os2]. cbn [snd] in *.
      cbn [decisions]. rewrite String.eqb_refl. subst r2. f_equal. exact IH.
    + destruct (check_limit s1 k' t) as [s1' r1]. cbn [fst] in *.
      specialize (IH s1' s2 ltac:(rewrite Hother by congruence; exact Hlog)
                     ltac:(congruence) ltac:(congruence)).
      destruct (run s1' cs) as [s1'' os1]. cbn [snd decisions] in *.
      destruct (String.eqb_spec k' k) as [E|_]; [contradiction|]. exact IH.
  - specialize (IH s1 s2 Hlog Hmax Hwin).
    destruct (run s1 cs) as [s1'' os1]. exact IH.
Qed.

(** X7. Keys do not interfere: what the callers for one key are told, call
    after call, is what they would be told if the calls for all other
    keys, and the [get_stats] calls, had never been made. *)
Theorem keys_are_independent (maxr : Z) (w : Q) (cs : list call) (k : string) :
  decisions k (snd (run (init maxr w) cs))
  = decisions k (snd (run (init maxr w) (for_key k cs))).
Proof. apply run_for_key; reflexivity. Qed.

End LimiterIsolation.

Section LimiterBlockRate.
Import Limiter LimiterAux.

Lemma count_returned_bounds b os :
  0 <= count_returned b os <= count_checks os.
Proof.
  induction os as [|o os IH]; cbn; [lia|].
  destruct o as [k t [b' msg|]|s]; cbn; [destruct (Bool.eqb b b')|..]; lia.
Qed.

(** X8. [block_rate] is a percentage: on a new limiter, whatever its
    configuration and the calls made, the rate reported by [get_stats]
    lies between 0 and 100, and it is 0 as long as nothing was blocked. *)
Theorem block_rate_is_percentage (maxr : Z) (w : Q) (cs : list call) :
  let s := get_stats (fst (run (init maxr w) cs)) in
  (0 <= snap_block_rate s /\ snap_block_rate s <= 100)%Q
  /\ (snap_blocked s = 0 -> (snap_block_rate s == 0)%Q).
Proof.
  pose proof (run_counts cs (init maxr w)) as (Ht & _ & Hb).
  cbn [stats init total_checks blocked] in Ht, Hb.
  rewrite Z.add_0_l in Ht, Hb.
  pose proof (count_returned_bounds false (snd (run (init maxr w) cs))) as Hbd.
  cbv zeta. unfold get_stats. cbn [snap_block_rate snap_blocked].
  set (st := stats (fst (run (init maxr w) cs))) in *.
  rewrite <- Ht, <- Hb in Hbd.
  destruct (Z.gtb_spec (total_checks st) 0) as [Hpos|Hz].
  - assert (Htq : (0 < inject_Z (total_checks st))%Q).
    { change 0%Q with (inject_Z 0). rewrite <- Zlt_Qlt. exact Hpos. }
    assert (Hlo : (0 <= inject_Z (blocked st) / inject_Z (total_checks st))%Q).
    { apply Qle_shift_div_l; [exact Htq|].
      rewrite Qmult_0_l. change 0%Q with (inject_Z 0). rewrite <- Zle_Qle. lia. }
    assert (Hhi : (inject_Z (blocked st) / inject_Z (total_checks st) <= 1)%Q).
    { apply Qle_shift_div_r; [exact Htq|].
      rewrite Qmult_1_l. rewrite <- Zle_Qle. lia. }
    split; [split; lra|].
    intros ->. unfold Qdiv. change (inject_Z 0) with 0%Q. lra.
  - split; [split; lra | intros _; reflexivity].
Qed.

End LimiterBlockRate.

Section LimiterBurst.
Import Limiter LimiterAux.






End LimiterBurst.

(** * Properties of the message and user-id validators *)

Section Strip.
Import Messages.

Lemma lstrip_head s :
  lstrip s = [] \/ exists c s', lstrip s = c :: s' /\ isspace c = false.
Proof.
  induction s as [|c s IH]; cbn; [left; reflexivity|].
  destruct (isspace c) eqn:E; [exact IH | right; eauto].
Qed.

Lemma lstrip_fixed c s : isspace c = false -> lstrip (c :: s) = c :: s.
Proof. intros E. cbn. rewrite E. reflexivity. Qed.

Lemma rstrip_head c s :
  isspace c = false -> exists r, rstrip (c :: s) = c :: r.
Proof.
  intros E. cbn. destruct (rstrip s); [rewrite E|]; eauto.
Qed.

Lemma rstrip_idem s : rstrip (rstrip s) = rstrip s.
Proof.
  induction s as [|c s IH]; cbn; [reflexivity|].
  destruct (rstrip s) as [|d r] eqn:Hr.
  - destruct (isspace c) eqn:E; cbn; [reflexivity | rewrite E; reflexivity].
  - cbn [rstrip] in *. rewrite IH. reflexivity.
Qed.

(** Stripping twice is stripping once. *)
Lemma strip_idem s : strip (strip s) = strip s.
Proof.
  unfold strip.
  destruct (lstrip_head s) as [-> | (c & s' & -> & E)]; [reflexivity|].
  destruct (rstrip_head c s' E) as [r Hr]. rewrite Hr.
  rewrite (lstrip_fixed c r E), <- Hr. apply rstrip_idem.
Qed.

Lemma Forall_lstrip (P : N -> Prop) s : Forall P s -> Forall P (lstrip s).
Proof.
  induction 1 as [|c s Hc Hs IH]; cbn; [constructor|].
  destruct (isspace c); [exact IH | constructor; assumption].
Qed.

Lemma Forall_rstrip (P : N -> Prop) s : Forall P s -> Forall P (rstrip s).
Proof.
  induction 1 as [|c s Hc Hs IH]; cbn; [constructor|].
  destruct (rstrip s).
  - destruct (isspace c); repeat constructor; assumption.
  - constructor; assumption.
Qed.

Lemma Forall_strip (P : N -> Prop) s : Forall P s -> Forall P (strip s).
Proof. intros H. apply Forall_rstrip, Forall_lstrip, H. Qed.

Lemma length_lstrip s : (length (lstrip s) <= length s)%nat.
Proof.
  induction s as [|c s IH]; cbn; [lia|]. destruct (isspace c); cbn; lia.
Qed.

Lemma length_rstrip s : (length (rstrip s) <= length s)%nat.
Proof.
  induction s as [|c s IH]; cbn; [lia|].
  destruct (rstrip s); [destruct (isspace c)|]; cbn in *; lia.
Qed.

Lemma length_strip s : (length (strip s) <= length s)%nat.
Proof.
  unfold strip. pose proof (length_rstrip (lstrip s)).
  pose proof (length_lstrip s). lia.
Qed.

Lemma lstrip_nil s : lstrip s = [] <-> Forall (fun c => isspace c = true) s.
Proof.
  induction s as [|c s IH]; cbn; [split; [constructor | reflexivity]|].
  destruct (isspace c) eqn:E.
  - rewrite IH. split; [intros H; constructor; assumption|].
    intros H. apply Forall_cons in H as [_ H]. exact H.
  - split; [discriminate|]. intros H. apply Forall_cons in H as [H _].
    congruence.
Qed.

Lemma rstrip_nil s : rstrip s = [] <-> Forall (fun c => isspace c = true) s.
Proof.
  induction s as [|c s IH]; cbn; [split; [constructor | reflexivity]|].
  destruct (rstrip s) as [|d r] eqn:Hr.
  - destruct (isspace c) eqn:E.
    + split; [|reflexivity]. intros _. constructor; [exact E|].
      apply IH. reflexivity.
    + split; [discriminate|]. intros H. apply Forall_cons in H as [H _].
      congruence.
  - split; [discriminate|]. intros H. apply Forall_cons in H as [_ H].
    apply IH in H. discriminate.
Qed.

(** [strip] leaves nothing exactly when every character is whitespace. *)
Lemma strip_nil s : strip s = [] <-> Forall (fun c => isspace c = true) s.
Proof.
  unfold strip. rewrite rstrip_nil. split.
  - intros H. apply lstrip_nil.
    destruct (lstrip_head s) as [E | (c & s' & E & Hc)]; [exact E|].
    rewrite E in H. apply Forall_cons in H as [H _]. congruence.
  - intros H. apply lstrip_nil in H. rewrite H. constructor.
Qed.

End Strip.

Section Characters.
Import Messages.

Lemma invalid_control_printable c : invalid_control c = false <-> printable c.
Proof.
  unfold invalid_control, printable. cbn [existsb].
  destruct (N.ltb_spec c 32) as [Hlt|Hge]; cbn [andb].
  - rewrite negb_false_iff, !orb_true_iff, !N.eqb_eq. lia.
  - split; [intros _; left; exact Hge | reflexivity].
Qed.

Lemma invalid_control_true c : invalid_control c = true <-> ~ printable c.
Proof.
  rewrite <- invalid_control_printable.
  destruct (invalid_control c); split; intros H; congruence.
Qed.

Lemma kept_printable c : kept c = true <-> printable c.
Proof.
  unfold kept, printable. cbn [existsb].
  rewrite !orb_true_iff, N.leb_le, !N.eqb_eq. lia.
Qed.

Lemma first_invalid_control_none s : forall i,
  first_invalid_control i s = None <-> Forall printable s.
Proof.
  induction s as [|c s IH]; intros i; cbn; [split; [constructor | reflexivity]|].
  destruct (invalid_control c) eqn:E.
  - split; [discriminate|]. intros H. apply Forall_cons in H as [H _].
    apply invalid_control_printable in H. congruence.
  - rewrite IH. apply invalid_control_printable in E.
    split; [intros H; constructor; assumption|].
    intros H. apply Forall_cons in H as [_ H]. exact H.
Qed.

Lemma first_invalid_control_some s : forall i j c,
  first_invalid_control i s = Some (j, c) ->
  (i <= j)%nat
  /\ nth_error s (j - i) = Some c
  /\ invalid_control c = true
  /\ Forall printable (firstn (j - i) s).
Proof.
  induction s as [|d s IH]; intros i j c; cbn; [discriminate|].
  destruct (invalid_control d) eqn:E.
  - intros [= <- <-]. rewrite Nat.sub_diag. cbn.
    repeat split; [lia | exact E | constructor].
  - intros H. apply IH in H as (Hle & Hnth & Hc & Hpre).
    replace (j - i)%nat with (S (j - S i)) by lia. cbn.
    repeat split; [lia | exact Hnth | exact Hc |].
    constructor; [apply invalid_control_printable, E | exact Hpre].
Qed.

Lemma no_null_printable s : Forall printable s -> existsb (N.eqb 0) s = false.
Proof.
  induction 1 as [|c s Hc Hs IH]; cbn [existsb]; [reflexivity|].
  rewrite IH, orb_false_r. apply N.eqb_neq.
  unfold printable in Hc. lia.
Qed.

End Characters.

Section MessageValidation.
Import Messages.

(** An accepted message is a [str] of acceptable characters that is not
    whitespace only and is not too long. *)
Lemma validate_message_accepted m :
  validate_message m = (true, None) ->
  exists s, m = Str s
            /\ (1 <= length s <= MAX_MESSAGE_LENGTH)%nat
            /\ Forall printable s
            /\ strip s <> [].
Proof.
  destruct m as [s|ty r]; cbn [validate_message]; [|discriminate].
  destruct (Nat.eqb_spec (length s) 0) as [Hz|Hnz]; [discriminate|].
  destruct (Nat.ltb_spec MAX_MESSAGE_LENGTH (length s)) as [Hlong|Hshort];
    [discriminate|].
  destruct (existsb (N.eqb 0) s); [discriminate|].
  destruct (first_invalid_control 0 s) as [[i c]|] eqn:Hctl; [discriminate|].
  apply first_invalid_control_none in Hctl.
  destruct (strip s) as [|c r] eqn:Hstrip; [discriminate|].
  intros _. exists s. split; [reflexivity|]. split; [lia|].
  split; [exact Hctl|]. rewrite Hstrip. discriminate.
Qed.

(** X12. What [validate_message] accepts: exactly the [str] values of 1 to
    4000 characters in which every character is printable or one of tab,
    LF, VT, FF, CR, and which are not made of whitespace only. Everything
    else is refused with an error message. *)
Theorem validate_message_accepts (m : pyobj) :
  (validate_message m = (true, None) <->
   exists s, m = Str s
             /\ (1 <= length s <= MAX_MESSAGE_LENGTH)%nat
             /\ Forall printable s
             /\ ~ Forall (fun c => isspace c = true) s)
  /\ (validate_message m <> (true, None) ->
      exists e, validate_message m = (false, Some e)).
Proof.
  destruct m as [s|ty r]; cbn [validate_message].
  2:{ split; [|eauto]. split; [discriminate|]. intros (s & [=] & _). }
  destruct (Nat.eqb_spec (length s) 0) as [Hz|Hnz].
  { split; [|eauto]. split; [discriminate|].
    intros (s' & [= <-] & Hlen & _). lia. }
  destruct (Nat.ltb_spec MAX_MESSAGE_LENGTH (length s)) as [Hlong|Hshort].
  { split; [|eauto]. split; [discriminate|].
    intros (s' & [= <-] & Hlen & _). lia. }
  destruct (existsb (N.eqb 0) s) eqn:Hnull.
  { split; [|eauto]. split; [discriminate|].
    intros (s' & [= <-] & _ & Hp & _).
    rewrite (no_null_printable s Hp) in Hnull. discriminate. }
  destruct (first_invalid_control 0 s) as [[i c]|] eqn:Hctl.
  { split; [|eauto]. split; [discriminate|].
    intros (s' & [= <-] & _ & Hp & _).
    apply (first_invalid_control_none s 0) in Hp. congruence. }
  apply first_invalid_control_none in Hctl.
  destruct (strip s) as [|c r] eqn:Hstrip.
  { split; [|eauto]. split; [discriminate|].
    intros (s' & [= <-] & _ & _ & Hws). exfalso. apply Hws, strip_nil, Hstrip. }
  split; [|intros H; contradiction].
  split; [|reflexivity]. intros _. exists s.
  split; [reflexivity|]. split; [lia|]. split; [exact Hctl|].
  intros Hws. apply strip_nil in Hws. congruence.
Qed.

Lemma validate_message_accepts_witness :
  validate_message (Str [72; 105; 10; 33]%N) = (true, None)
  /\ validate_message (Str [32; 10; 9]%N) <> (true, None)
  /\ exists e, validate_message (Str [32; 10; 9]%N) = (false, Some e).
Proof.
  assert (Hrej : validate_message (Str [32; 10; 9]%N) <> (true, None))
    by (vm_compute; discriminate).
  split; [|split; [exact Hrej|]].
  - apply (validate_message_accepts (Str [72; 105; 10; 33]%N)).
    exists [72; 105; 10; 33]%N. split; [reflexivity|].
    split; [cbn; unfold MAX_MESSAGE_LENGTH; lia|]. split.
    + repeat constructor; unfold printable; lia.
    + intros H. apply Forall_cons in H as [H _]. vm_compute in H. discriminate.
  - apply (validate_message_accepts (Str [32; 10; 9]%N)), Hrej.
Defined.

(** X13. The position in a control-character error is that of the first
    offending character: when [validate_message] reports an invalid
    control character at position [i] with code [c], the character at
    index [i] is [c], it is a control character other than tab, LF, VT,
    FF and CR, every character before it is acceptable, and the message
    holds no null byte. *)
Theorem control_character_position (s : pystr) (i : nat) (c : N) :
  validate_message (Str s) = (false, Some (InvalidControlCharacter i c)) ->
  nth_error s i = Some c
  /\ (c < 32)%N /\ ~ printable c
  /\ Forall printable (firstn i s)
  /\ ~ In 0%N s.
Proof.
  cbn [validate_message].
  destruct (length s =? 0)%nat; [discriminate|].
  destruct (MAX_MESSAGE_LENGTH <? length s)%nat; [discriminate|].
  destruct (existsb (N.eqb 0) s) eqn:Hnull; [discriminate|].
  destruct (first_invalid_control 0 s) as [[j d]|] eqn:Hctl.
  - intros [= -> ->].
    apply first_invalid_control_some in Hctl as (_ & Hnth & Hc & Hpre).
    rewrite Nat.sub_0_r in *.
    split; [exact Hnth|]. split; [|split; [|split; [exact Hpre|]]].
    + unfold invalid_control in Hc. apply andb_true_iff in Hc as [Hc _].
      apply N.ltb_lt, Hc.
    + apply invalid_control_true, Hc.
    + intros Hin.
      assert (Hex : existsb (N.eqb 0) s = true).
      { apply existsb_exists. exists 0%N. split; [exact Hin | reflexivity]. }
      congruence.
  - destruct (strip s); discriminate.
Qed.

Lemma control_character_position_witness :
  validate_message (Str [79; 75; 7; 27]%N)
  = (false, Some (InvalidControlCharacter 2 7))
  /\ nth_error [79; 75; 7; 27]%N 2 = Some 7%N.
Proof.
  assert (H : validate_message (Str [79; 75; 7; 27]%N)
              = (false, Some (InvalidControlCharacter 2 7)))
    by (vm_compute; reflexivity).
  split; [exact H|].
  apply (control_character_position [79; 75; 7; 27]%N 2 7 H).
Defined.

Lemma filter_kept_printable s : Forall printable (List.filter kept s).
Proof.
  rewrite List.Forall_forall. intros c Hc.
  apply List.filter_In in Hc as [_ Hc]. apply kept_printable, Hc.
Qed.

(** A sanitized message holds acceptable characters only and is already
    stripped. *)
Lemma sanitize_clean m :
  Forall printable (sanitize_message m)
  /\ strip (sanitize_message m) = sanitize_message m.
Proof.
  destruct m as [s|ty r]; cbn [sanitize_message].
  - split; [apply Forall_strip, filter_kept_printable | apply strip_idem].
  - split; [constructor | reflexivity].
Qed.

(** On a string of acceptable characters that is already stripped,
    [validate_message] only looks at the length. *)
Lemma validate_clean out :
  Forall printable out -> strip out = out ->
  validate_message (Str out)
  = match out with
    | [] => (false, Some CannotBeEmpty)
    | _ =>
        if (MAX_MESSAGE_LENGTH <? length out)%nat
        then (false, Some (ExceedsMaxLength MAX_MESSAGE_LENGTH))
        else (true, None)
    end.
Proof.
  intros Hp Hs. cbn [validate_message].
  destruct out as [|c out'] eqn:Hout; [reflexivity|].
  cbn [length Nat.eqb].
  destruct (MAX_MESSAGE_LENGTH <? S (length out'))%nat; [reflexivity|].
  rewrite (no_null_printable _ Hp).
  rewrite (proj2 (first_invalid_control_none _ 0) Hp).
  rewrite Hs. reflexivity.
Qed.

(** X14. What [sanitize_message] returns holds only characters that
    [validate_message] lets through, has no whitespace left at either
    end, is never longer than the message it was given, and is the empty
    string for anything that is not a [str]. *)
Theorem sanitize_message_output (m : pyobj) :
  Forall printable (sanitize_message m)
  /\ strip (sanitize_message m) = sanitize_message m
  /\ match m with
     | Str s => (length (sanitize_message m) <= length s)%nat
     | Other _ _ => sanitize_message m = []
     end.
Proof.
  destruct (sanitize_clean m) as [Hp Hs].
  split; [exact Hp|]. split; [exact Hs|].
  destruct m as [s|ty r]; cbn [sanitize_message]; [|reflexivity].
  pose proof (length_strip
                (List.filter kept
                   (List.filter (fun c => negb (c =? 0)%N) s))) as H1.
  pose proof (List.filter_length_le kept
                (List.filter (fun c => negb (c =? 0)%N) s)) as H2.
  pose proof (List.filter_length_le (fun c => negb (c =? 0)%N) s) as H3.
  lia.
Qed.

Lemma filter_all {A} (p : A -> bool) (l : list A) :
  Forall (fun x => p x = true) l -> List.filter p l = l.
Proof.
  induction 1 as [|x l Hx Hl IH]; cbn; [reflexivity|].
  rewrite Hx, IH. reflexivity.
Qed.

Lemma sanitize_printable s :
  Forall printable s -> sanitize_message (Str s) = strip s.
Proof.
  intros Hp. cbn [sanitize_message].
  rewrite (filter_all (fun c => negb (c =? 0)%N) s).
  - rewrite (filter_all kept s); [reflexivity|].
    eapply Forall_impl; [exact Hp|]. intros c Hc. apply kept_printable, Hc.
  - eapply Forall_impl; [exact Hp|]. cbn. intros c Hc.
    apply negb_true_iff, N.eqb_neq. unfold printable in Hc. lia.
Qed.

(** X15. Sanitizing twice is sanitizing once. *)
Theorem sanitize_message_idempotent (m : pyobj) :
  sanitize_message (Str (sanitize_message m)) = sanitize_message m.
Proof.
  destruct (sanitize_clean m) as [Hp Hs].
  rewrite (sanitize_printable _ Hp). exact Hs.
Qed.

(** X16. A sanitized message can only be refused for its length:
    whatever the input, [validate_message] applied to the result of
    [sanitize_message] accepts it unless it is empty or longer than 4000
    characters. *)
Theorem validate_sanitized (m : pyobj) :
  validate_message (Str (sanitize_message m))
  = match sanitize_message m with
    | [] => (false, Some CannotBeEmpty)
    | _ =>
        if (MAX_MESSAGE_LENGTH <? length (sanitize_message m))%nat
        then (false, Some (ExceedsMaxLength MAX_MESSAGE_LENGTH))
        else (true, None)
    end.
Proof.
  destruct (sanitize_clean m) as [Hp Hs].
  apply validate_clean; [exact Hp | exact Hs].
Qed.

(** X17. Sanitizing keeps a valid message valid, and only strips it: if
    [validate_message] accepts [m], then [sanitize_message m] is [m]
    without its leading and trailing whitespace, and
    [validate_message] accepts it too. *)
Theorem sanitize_preserves_valid (m : pyobj) :
  validate_message m = (true, None) ->
  (exists s, m = Str s /\ sanitize_message m = strip s)
  /\ validate_message (Str (sanitize_message m)) = (true, None).
Proof.
  intros Hv.
  apply validate_message_accepted in Hv as (s & -> & Hlen & Hp & Hne).
  pose proof (sanitize_printable s Hp) as Hsan.
  split; [exists s; split; [reflexivity | exact Hsan]|].
  rewrite Hsan.
  rewrite (validate_clean (strip s) (Forall_strip _ _ Hp) (strip_idem s)).
  destruct (strip s) as [|c r] eqn:Hstrip; [contradiction|].
  rewrite <- Hstrip.
  pose proof (length_strip s) as Hl.
  destruct (Nat.ltb_spec MAX_MESSAGE_LENGTH (length (strip s)));
    [lia | reflexivity].
Qed.

Lemma sanitize_preserves_valid_witness :
  validate_message (Str [32; 72; 105; 9]%N) = (true, None)
  /\ sanitize_message (Str [32; 72; 105; 9]%N) = [72; 105]%N
  /\ validate_message (Str (sanitize_message (Str [32; 72; 105; 9]%N)))
     = (true, None).
Proof.
  assert (Hv : validate_message (Str [32; 72; 105; 9]%N) = (true, None))
    by (vm_compute; reflexivity).
  split; [exact Hv|]. split; [vm_compute; reflexivity|].
  apply (sanitize_preserves_valid (Str [32; 72; 105; 9]%N) Hv).
Defined.

End MessageValidation.

Section UserIdValidation.
Import Messages.

Variable digit_char : N -> bool.

Lemma id_body_spec s :
  id_body s = true
  <-> (1 <= length s <= 50)%nat /\ Forall (fun c => id_char c = true) s.
Proof.
  unfold id_body.
  rewrite !andb_true_iff, Nat.leb_le, Nat.leb_le, forallb_forall,
    List.Forall_forall.
  tauto.
Qed.

(** X19. What an accepted user id looks like: its text has 1 to 50
    characters, and either [isdigit] holds of it or it is made of
    characters of [a-zA-Z0-9_-], possibly followed by one final newline,
    which the [$] of the pattern lets through. *)
Theorem validate_user_id_accepted (user_id : pyobj) :
  validate_user_id digit_char user_id = (true, None) ->
  (1 <= length (as_text user_id) <= 50)%nat
  /\ (isdigit digit_char (as_text user_id) = true
      \/ exists body,
           Forall (fun c => id_char c = true) body
           /\ (as_text user_id = body \/ as_text user_id = body ++ [10%N])).
Proof.
  unfold validate_user_id. cbv zeta.
  set (s := as_text user_id).
  destruct (Nat.eqb_spec (length s) 0) as [Hz|Hnz]; [discriminate|].
  destruct (Nat.ltb_spec 50 (length s)) as [Hlong|Hshort]; [discriminate|].
  destruct (isdigit digit_char s) eqn:Hd; cbn [orb negb].
  - intros _. split; [lia | left; reflexivity].
  - destruct (VALID_USER_ID_PATTERN_match s) eqn:Hm; [|discriminate].
    intros _. split; [lia|]. right.
    unfold VALID_USER_ID_PATTERN_match in Hm.
    apply orb_true_iff in Hm as [Hm | Hm].
    + apply id_body_spec in Hm as [_ Hm]. exists s. split; [exact Hm | left; reflexivity].
    + destruct (last s) as [[|p]|] eqn:Hl; try discriminate.
      destruct p as [p|p|]; try discriminate.
      destruct p as [p|p|]; try discriminate.
      destruct p as [p|p|]; try discriminate.
      destruct p as [p|p|]; try discriminate.
      apply last_Some in Hl as [body Hbody].
      rewrite Hbody, removelast_last in Hm.
      apply id_body_spec in Hm as [_ Hm].
      exists body. split; [exact Hm | right; exact Hbody].
Qed.

(** X20. What is always accepted: a [str] of 1 to 50 characters of
    [a-zA-Z0-9_-] is a valid user id, and so is such a string of at most
    49 characters with a newline appended. *)
Theorem validate_user_id_accepts (body : pystr) :
  (1 <= length body <= 50)%nat ->
  Forall (fun c => id_char c = true) body ->
  validate_user_id digit_char (Str body) = (true, None)
  /\ ((length body <= 49)%nat ->
      validate_user_id digit_char (Str (body ++ [10%N])) = (true, None)).
Proof.
  intros Hlen Hbody.
  assert (Hb : id_body body = true) by (apply id_body_spec; auto).
  split.
  - unfold validate_user_id. cbn [as_text].
    destruct (Nat.eqb_spec (length body) 0); [lia|].
    destruct (Nat.ltb_spec 50 (length body)); [lia|].
    unfold VALID_USER_ID_PATTERN_match. rewrite Hb, orb_true_r. reflexivity.
  - intros H49. unfold validate_user_id. cbn [as_text].
    rewrite length_app. cbn [length].
    destruct (Nat.eqb_spec (length body + 1) 0); [lia|].
    destruct (Nat.ltb_spec 50 (length body + 1)); [lia|].
    unfold VALID_USER_ID_PATTERN_match.
    rewrite last_snoc, removelast_last, Hb, !orb_true_r. reflexivity.
Qed.

End UserIdValidation.

Section UserIdExamples.
Import Messages.

Lemma validate_user_id_accepted_witness :
  validate_user_id ascii_digit (Str [117; 95; 55; 10]%N) = (true, None)
  /\ (1 <= length [117; 95; 55; 10]%N <= 50)%nat.
Proof.
  assert (H : validate_user_id ascii_digit (Str [117; 95; 55; 10]%N)
              = (true, None)) by (vm_compute; reflexivity).
  split; [exact H|].
  apply (validate_user_id_accepted ascii_digit (Str [117; 95; 55; 10]%N) H).
Defined.

Lemma validate_user_id_accepts_witness :
  (1 <= length [97; 45; 49]%N <= 50)%nat
  /\ Forall (fun c => id_char c = true) [97; 45; 49]%N
  /\ validate_user_id ascii_digit (Str [97; 45; 49]%N) = (true, None)
  /\ validate_user_id ascii_digit (Str [97; 45; 49; 10]%N) = (true, None).
Proof.
  assert (Hlen : (1 <= length [97; 45; 49]%N <= 50)%nat) by (cbn; lia).
  assert (Hb : Forall (fun c => id_char c = true) [97; 45; 49]%N)
    by (repeat constructor).
  destruct (validate_user_id_accepts ascii_digit [97; 45; 49]%N Hlen Hb)
    as [H1 H2].
  split; [exact Hlen|]. split; [exact Hb|]. split; [exact H1|].
  apply H2. cbn. lia.
Defined.

End UserIdExamples.

(** * Further properties of the shutdown manager *)

Section WaitTiming.
Import Shutdown ShutdownAux.

Lemma schedule_resume_after d w :
  schedule (resume_after d w) = tl (schedule w).
Proof. reflexivity. Qed.

Lemma wait_post_step timeout start w d w' r :
  wait_post timeout start (schedule (resume_after d w)) w' r ->
  wait_post timeout start (schedule w) w' r.
Proof.
  rewrite schedule_resume_after. intros (Hf & He & n & Hn).
  split; [exact Hf|]. split.
  - intros e Hr. destruct (He e Hr) as (i & Hi & Hd). exists i.
    split; [|exact Hd]. destruct (schedule w); [destruct Hi | right; exact Hi].
  - exists (S n). rewrite Hn. destruct (schedule w); [|reflexivity].
    cbn. rewrite !drop_nil. reflexivity.
Qed.

Lemma wp_sleep_cases d (Q : world -> outcome unit -> Prop) w :
  (forall e, delivered (hd idle (schedule w)) = Some e ->
             Q (resume_after d w) (Raised e)) ->
  (delivered (hd idle (schedule w)) = None ->
   Q (resume_after d w) (Returned tt)) ->
  wp (sleep d) Q w.
Proof.
  intros He Hn. unfold wp, sleep.
  destruct (delivered (hd idle (schedule w))) as [e|]; eauto.
Qed.

Lemma poll_timing timeout start n : forall w,
  ((timeout - (loop_time w - start)) * 10 < inject_Z (Z.of_nat n))%Q ->
  wp (poll (S n) timeout start) (wait_post timeout start (schedule w)) w.
Proof.
  induction n as [|n IH]; intros w Hfuel; unfold wp; cbn [poll]; cbv beta;
    destruct (Z.gtb_spec (pending_operations w) 0) as [Hpos | Hzero].
  - destruct (Qlt_bool timeout (loop_time w - start)) eqn:Hel.
    + apply wp_bind, wp_logger, wp_ret. apply Qlt_bool_iff in Hel.
      split; [intros _; exact Hel|]. split; [discriminate | exists 0%nat; reflexivity].
    + apply Qlt_bool_false_iff in Hel.
      change (inject_Z (Z.of_nat 0)) with 0%Q in Hfuel. lra.
  - apply wp_bind, wp_logger, wp_ret.
    split; [discriminate|]. split; [discriminate | exists 0%nat; reflexivity].
  - destruct (Qlt_bool timeout (loop_time w - start)) eqn:Hel.
    + apply wp_bind, wp_logger, wp_ret. apply Qlt_bool_iff in Hel.
      split; [intros _; exact Hel|]. split; [discriminate | exists 0%nat; reflexivity].
    + apply Qlt_bool_false_iff in Hel.
      apply wp_bind, wp_logger, wp_bind.
      set (w1 := emit [Log DEBUG (WaitingFor (pending_operations w))] w).
      apply wp_sleep_cases.
      * intros e Hdel.
        split; [discriminate|]. split.
        -- intros e' [= <-]. exists (hd idle (schedule w1)).
           split; [|exact Hdel].
           change (schedule w1) with (schedule w) in *.
           destruct (schedule w); [cbn in Hdel; discriminate | left; reflexivity].
        -- exists 1%nat. change (schedule (resume_after (1#10) w1))
                          with (tl (schedule w)).
           destruct (schedule w); reflexivity.
      * intros Hdel.
        eapply wp_mono; [apply (IH (resume_after (1#10) w1))|].
        -- pose proof (loop_time_resume_after (1#10) w1) as Ht.
           change (loop_time w1) with (loop_time w) in Ht.
           rewrite Nat2Z.inj_succ in Hfuel. unfold Z.succ in Hfuel.
           rewrite inject_Z_plus in Hfuel.
           change (inject_Z 1) with 1%Q in Hfuel. lra.
        -- intros w' r Hpost.
           apply (wait_post_step timeout start w1 (1#10)), Hpost.
  - apply wp_bind, wp_logger, wp_ret.
    split; [discriminate|]. split; [discriminate | exists 0%nat; reflexivity].
Qed.

(** X21. What the answer of [wait_for_pending_operations] means. The call
    always comes back. [True] is only returned when the counter is at
    zero; [False] only when it is still positive and more than [timeout]
    seconds have passed on the loop clock since the call; and if the call
    raises, the exception is one that an await delivered. *)
Theorem wait_for_pending_operations_answer (timeout : Q) (w : world) :
  exists w' r,
    wait_for_pending_operations timeout w = Some (w', r)
    /\ match r with
       | Returned true => pending_operations w' <= 0
       | Returned false =>
           0 < pending_operations w'
           /\ (timeout < loop_time w' - loop_time w)%Q
       | Raised e => exists i, In i (schedule w) /\ delivered i = Some e
       end.
Proof.
  destruct (wait_for_pending_operations_spec timeout w)
    as (w1 & r1 & Hrun1 & _ & _ & Hans).
  assert (Htime : wp (wait_for_pending_operations timeout)
                     (wait_post timeout (loop_time w) (schedule w)) w).
  { unfold wait_for_pending_operations, poll_bound. apply poll_timing.
    pose proof (poll_bound_enough timeout). lra. }
  destruct Htime as (w' & r & Hrun & Hfalse & Hraise & _).
  rewrite Hrun in Hrun1. injection Hrun1 as <- <-.
  exists w', r. split; [exact Hrun|].
  destruct r as [[|]|e].
  - exact Hans.
  - split; [exact Hans | apply Hfalse; reflexivity].
  - apply Hraise. reflexivity.
Qed.

End WaitTiming.

Section WaitBound.
Import Shutdown ShutdownAux Scenarios.

Lemma punctual_head sched :
  punctual sched ->
  late_ms (hd idle sched) = 0%N /\ delivered (hd idle sched) = None
  /\ punctual (tl sched).
Proof.
  intros H. destruct sched as [|i sched]; cbn.
  - repeat split. constructor.
  - apply Forall_cons in H as [[Hl Hd] H]. auto.
Qed.

Lemma loop_time_resume_punctual d w :
  late_ms (hd idle (schedule w)) = 0%N ->
  (loop_time (resume_after d w) == loop_time w + d)%Q.
Proof.
  intros H. unfold resume_after. cbn. rewrite H. cbn. field.
Qed.

Lemma poll_punctual timeout start bound n : forall w,
  ((timeout - (loop_time w - start)) * 10 < inject_Z (Z.of_nat n))%Q ->
  punctual (schedule w) ->
  (loop_time w - start <= bound)%Q ->
  (timeout + (1#10) <= bound)%Q ->
  wp (poll (S n) timeout start) (punctual_post start bound) w.
Proof.
  induction n as [|n IH]; intros w Hfuel Hp Hnow Hb; unfold wp; cbn [poll];
    cbv beta;
    destruct (Z.gtb_spec (pending_operations w) 0) as [Hpos | Hzero].
  - destruct (Qlt_bool timeout (loop_time w - start)) eqn:Hel.
    + apply wp_bind, wp_logger, wp_ret. split; [eauto | exact Hnow].
    + apply Qlt_bool_false_iff in Hel.
      change (inject_Z (Z.of_nat 0)) with 0%Q in Hfuel. lra.
  - apply wp_bind, wp_logger, wp_ret. split; [eauto | exact Hnow].
  - destruct (Qlt_bool timeout (loop_time w - start)) eqn:Hel.
    + apply wp_bind, wp_logger, wp_ret. split; [eauto | exact Hnow].
    + apply Qlt_bool_false_iff in Hel.
      apply wp_bind, wp_logger, wp_bind.
      set (w1 := emit [Log DEBUG (WaitingFor (pending_operations w))] w).
      destruct (punctual_head (schedule w1) Hp) as (Hlate & Hdel & Hp').
      pose proof (loop_time_resume_punctual (1#10) w1 Hlate) as Ht.
      change (loop_time w1) with (loop_time w) in Ht.
      apply wp_sleep_cases; [intros e He; congruence|]. intros _.
      apply IH.
      * rewrite Nat2Z.inj_succ in Hfuel. unfold Z.succ in Hfuel.
        rewrite inject_Z_plus in Hfuel.
        change (inject_Z 1) with 1%Q in Hfuel. rewrite Ht. lra.
      * exact Hp'.
      * rewrite Ht. lra.
      * exact Hb.
  - apply wp_bind, wp_logger, wp_ret. split; [eauto | exact Hnow].
Qed.

(** X22. The drain wait is bounded: with a non-negative timeout, when timers
    fire on time and no await raises, [wait_for_pending_operations]
    returns no later than [timeout] plus one polling interval of a tenth
    of a second after it was called, whatever happens to the counter in
    the meantime. *)
Theorem wait_for_pending_operations_bounded (timeout : Q) (w : world) :
  (0 <= timeout)%Q ->
  punctual (schedule w) ->
  exists w' b,
    wait_for_pending_operations timeout w = Some (w', Returned b)
    /\ (loop_time w' - loop_time w <= timeout + (1#10))%Q.
Proof.
  intros Ht Hp.
  assert (H : wp (wait_for_pending_operations timeout)
                 (punctual_post (loop_time w) (timeout + (1#10))) w).
  { unfold wait_for_pending_operations, poll_bound.
    apply poll_punctual; [|exact Hp|lra|lra].
    pose proof (poll_bound_enough timeout). lra. }
  destruct H as (w' & r & Hrun & [b ->] & Hbound).
  exists w', b. split; [exact Hrun | exact Hbound].
Qed.

Lemma wait_for_pending_operations_bounded_witness :
  (0 <= 1)%Q /\ punctual (schedule stuck_operations)
  /\ exists w' b,
      wait_for_pending_operations 1 stuck_operations = Some (w', Returned b)
      /\ (loop_time w' - loop_time stuck_operations <= 1 + (1#10))%Q.
Proof.
  assert (Hp : punctual (schedule stuck_operations)) by constructor.
  assert (Ht : (0 <= 1)%Q) by discriminate.
  split; [exact Ht|]. split; [exact Hp|].
  exact (wait_for_pending_operations_bounded 1 stuck_operations Ht Hp).
Defined.

End WaitBound.

Section CancelOutcome.
Import Shutdown ShutdownAux Scenarios.








End CancelOutcome.

Section Counting.
Import Shutdown ShutdownAux Scenarios.

Lemma counting_paired cs : forall w,
  paired (pending_operations w) cs ->
  pending_operations (fold_left count cs w) = pending_operations w + net cs.
Proof.
  induction cs as [|c cs IH]; intros w Hp; cbn [fold_left net]; [lia|].
  destruct c; cbn [paired count] in *.
  - rewrite IH by exact Hp. cbn. lia.
  - destruct Hp as [Hpos Hp].
    unfold decrement_pending_operations.
    destruct (Z.gtb_spec (pending_operations w) 0) as [_|Hle]; [|lia].
    rewrite IH by exact Hp. cbn. lia.
Qed.

(** X26. Paired counting is exact: as long as no decrement arrives when
    nothing is in flight, which is how scoped increment/decrement pairs
    behave, the counter of a new manager equals the number of increments
    minus the number of decrements; the clamp at zero never comes into
    play. *)
Theorem pending_operations_exact (now : Q) (sched : list interference)
    (cs : list counter_call) :
  paired 0 cs ->
  pending_operations (fold_left count cs (init now sched)) = net cs.
Proof.
  intros Hp. rewrite (counting_paired cs (init now sched) Hp). cbn. lia.
Qed.

Lemma pending_operations_exact_witness :
  paired 0 [Increment; Increment; Decrement; Increment; Decrement]
  /\ pending_operations
       (fold_left count [Increment; Increment; Decrement; Increment; Decrement]
          (init 0 []))
     = 1.
Proof.
  assert (Hp : paired 0 [Increment; Increment; Decrement; Increment; Decrement])
    by (cbn; lia).
  split; [exact Hp|].
  exact (pending_operations_exact 0 []
           [Increment; Increment; Decrement; Increment; Decrement] Hp).
Defined.

Lemma setup_fields cs : forall w,
  let w' := fold_left setup cs w in
  background_tasks w' = background_tasks w ++ registered_tasks cs
  /\ shutdown_handlers w' = shutdown_handlers w ++ registered_handlers cs
  /\ _shutting_down w' = _shutting_down w
  /\ loop_time w' = loop_time w
  /\ schedule w' = schedule w
  /\ calls (trace w') = calls (trace w).
Proof.
  induction cs as [|c cs IH]; intros w; cbn [fold_left].
  - cbn. rewrite !app_nil_r. repeat split; reflexivity.
  - specialize (IH (setup w c)). cbv zeta in IH.
    destruct IH as (Ht & Hh & Hf & Hl & Hs & Hc).
    cbv zeta. rewrite Ht, Hh, Hf, Hl, Hs, Hc.
    destruct c as [task|h|[|]]; cbn;
      rewrite <- ?app_assoc; cbn;
      try rewrite calls_app; cbn; rewrite ?app_nil_r;
      try (unfold decrement_pending_operations;
           destruct (pending_operations w >? 0); cbn);
      repeat split; reflexivity.
Qed.

(** Registration only adds: on a new manager, after any mix of
    registrations and counting calls, the tracked tasks and the handlers
    are those registered, in the order of registration, no handler has
    been called, and [get_status] reports them all with
    [shutting_down=False]. *)
Theorem status_after_setup (now : Q) (sched : list interference)
    (cs : list setup_call) :
  let w := fold_left setup cs (init now sched) in
  background_tasks w = registered_tasks cs
  /\ shutdown_handlers w = registered_handlers cs
  /\ calls (trace w) = []
  /\ get_status w
     = {| status_shutting_down := false;
          status_pending_operations := pending_operations w;
          status_background_tasks := length (registered_tasks cs);
          status_active_tasks :=
            length (List.filter (fun t => negb (done t)) (registered_tasks cs));
          status_shutdown_handlers := length (registered_handlers cs) |}.
Proof.
  destruct (setup_fields cs (init now sched)) as (Ht & Hh & Hf & _ & _ & Hc).
  cbv zeta in *. cbn in Ht, Hh, Hf, Hc.
  repeat split; try assumption.
  unfold get_status. rewrite Ht, Hh, Hf. reflexivity.
Qed.

End Counting.

Section TraceShape.
Import Shutdown ShutdownAux.

Variable P : list event -> Prop.
Hypothesis P_nil : P [].
Hypothesis P_app : forall a b, P a -> P b -> P (a ++ b).
Hypothesis P_log : forall lvl msg, P [Log lvl msg].








Hypothesis P_cancel : forall name, P [Cancel name].



Hypothesis P_call : forall name awaited, P [Call name awaited].




End TraceShape.

Section ShutdownOrder.
Import Shutdown ShutdownAux Scenarios.




End ShutdownOrder.

Section HandlerReports.
Import Shutdown ShutdownAux Scenarios.

Lemma awaited_calls_app evs1 evs2 :
  awaited_calls (evs1 ++ evs2) = awaited_calls evs1 ++ awaited_calls evs2.
Proof.
  induction evs1 as [|ev evs1 IH]; [reflexivity|].
  destruct ev; cbn; rewrite IH; reflexivity.
Qed.

Lemma reports_app evs1 evs2 :
  reports (evs1 ++ evs2) = reports evs1 ++ reports evs2.
Proof.
  induction evs1 as [|ev evs1 IH]; [reflexivity|].
  destruct ev as [lvl []| |]; cbn; rewrite IH; reflexivity.
Qed.

Lemma reported_nil w w' :
  awaited_calls (trace w') = awaited_calls (trace w) ->
  reports (trace w') = reports (trace w) ->
  reported [] w w'.
Proof.
  intros Ha Hr. unfold reported. rewrite Ha, Hr. cbn.
  rewrite !app_nil_r. split; reflexivity.
Qed.

Lemma reported_trans h hs w w1 w2 :
  reported [h] w w1 -> reported hs w1 w2 -> reported (h :: hs) w w2.
Proof.
  intros [Ha1 Hr1] [Ha2 Hr2]. unfold reported.
  rewrite Ha2, Ha1, Hr2, Hr1. cbn. rewrite <- !app_assoc. split; reflexivity.
Qed.

Lemma run_handler_reported h w :
  wp (run_handler h)
     (fun w' r => r = Returned tt -> reported [h] w w') w.
Proof.
  unfold run_handler.
  apply wp_try_except, wp_bind, wp_logger, wp_bind.
  set (w1 := emit [Log DEBUG (ExecutingHandler (__name__ h))] w).
  assert (Hstep :
            wp (invoke h (iscoroutinefunction h))
               (fun w' r =>
                  match r with
                  | Returned _ =>
                      wp (logger DEBUG (HandlerCompleted (__name__ h)))
                         (fun w'' r' =>
                            match r' with
                            | Returned a => Returned a = Returned tt -> reported [h] w w''
                            | Raised e =>
                                if isinstance_Exception e
                                then wp (logger ERROR (ErrorInHandler (__name__ h) e))
                                        (fun w3 r3 => r3 = Returned tt -> reported [h] w w3)
                                        w''
                                else Raised e = Returned tt -> reported [h] w w''
                            end) w'
                  | Raised e =>
                      if isinstance_Exception e
                      then wp (logger ERROR (ErrorInHandler (__name__ h) e))
                              (fun w3 r3 => r3 = Returned tt -> reported [h] w w3)
                              w'
                      else Raised e = Returned tt -> reported [h] w w'
                  end) w1).
  { apply wp_invoke. set (w2 := put_view _ _).
    assert (Hdone : forall lvl msg,
               map fst (reports [Log lvl msg]) = [__name__ h] ->
               reported [h] w (emit [Log lvl msg] w2)).
    { intros lvl msg Hm. unfold reported.
      cbn [trace emit w2 put_view w1].
      rewrite !awaited_calls_app, !reports_app, !map_app, Hm. cbn.
      rewrite !app_nil_r. split; reflexivity. }
    destruct (snd (body h (get_view w1))) as [[]|e].
    - apply wp_logger. intros _. apply Hdone; reflexivity.
    - destruct (isinstance_Exception e); [|discriminate].
      apply wp_logger. intros _. apply Hdone; reflexivity. }
  destruct (iscoroutinefunction h); exact Hstep.
Qed.

Lemma for_handlers_reported hs : forall w,
  wp (for_handlers hs) (fun w' r => r = Returned tt -> reported hs w w') w.
Proof.
  induction hs as [|h hs IH]; intros w; cbn [for_handlers].
  - apply wp_ret. intros _. apply reported_nil; reflexivity.
  - apply wp_bind. eapply wp_mono; [apply run_handler_reported|].
    intros w1 r1 H1. destruct r1 as [[]|e]; [|discriminate].
    eapply wp_mono; [apply IH|].
    intros w2 r2 H2 Hr. apply (reported_trans h hs w w1 w2); auto.
Qed.

(** X28. How the handlers are run and reported: when
    [execute_shutdown_handlers] returns, every handler that is a
    coroutine function was awaited and every other one was called
    directly, and the log holds, handler by handler and in the same
    order, exactly one entry saying that it completed or that it failed. *)
Theorem execute_shutdown_handlers_reports (w : world) :
  exists w' r,
    execute_shutdown_handlers w = Some (w', r)
    /\ (r = Returned tt -> reported (shutdown_handlers w) w w').
Proof.
  change (wp execute_shutdown_handlers
             (fun w' r => r = Returned tt -> reported (shutdown_handlers w) w w')
             w).
  unfold wp, execute_shutdown_handlers.
  destruct (shutdown_handlers w) as [|h hs].
  - apply wp_logger. intros _. apply reported_nil; cbn.
    + rewrite awaited_calls_app. cbn. apply app_nil_r.
    + rewrite reports_app. cbn. apply app_nil_r.
  - apply wp_bind, wp_logger, wp_bind.
    set (w1 := emit _ w).
    eapply wp_mono; [apply (for_handlers_reported (h :: hs) w1)|].
    intros w2 r2 H2. destruct r2 as [[]|e]; [|discriminate].
    apply wp_logger. intros _. destruct (H2 eq_refl) as [Ha Hr].
    unfold reported. cbn [trace emit].
    rewrite awaited_calls_app, reports_app, map_app, Ha, Hr.
    unfold w1. cbn [trace emit].
    rewrite awaited_calls_app, reports_app, map_app. cbn. rewrite !app_nil_r.
    split; reflexivity.
Qed.

Lemma execute_shutdown_handlers_reports_witness :
  exists w',
    execute_shutdown_handlers two_handlers = Some (w', Returned tt)
    /\ awaited_calls (trace w') = [("close_db"%string, true); ("save_state"%string, false)]
    /\ map fst (reports (trace w')) = ["close_db"; "save_state"]%string.
Proof.
  destruct (execute_shutdown_handlers_reports two_handlers)
    as (w' & r & Hrun & Hrep).
  assert (Hr : r = Returned tt).
  { apply (f_equal (option_map snd)) in Hrun. vm_compute in Hrun.
    injection Hrun as <-. reflexivity. }
  subst r. destruct (Hrep eq_refl) as [Ha Hm].
  exists w'. split; [exact Hrun|]. split; [exact Ha | exact Hm].
Defined.

End HandlerReports.

(** * The reference implementations of the test suite *)

Section ReferenceLimiter.
Import Limiter.

Lemma reference_get_set_eq ref k l :
  TestSuite.get_requests (TestSuite.set_requests k l ref) k = l.
Proof.
  unfold TestSuite.get_requests, TestSuite.set_requests; cbn.
  by rewrite lookup_insert_eq.
Qed.

Lemma reference_get_set_ne ref k k' l :
  k' ≠ k ->
  TestSuite.get_requests (TestSuite.set_requests k l ref) k'
  = TestSuite.get_requests ref k'.
Proof.
  intros Hne. unfold TestSuite.get_requests, TestSuite.set_requests; cbn.
  by rewrite lookup_insert_ne.
Qed.

(** What one call of the reference limiter does, with the pruned log
    named. *)
Lemma reference_check_limit ref k t :
  let pruned :=
    List.filter (fun u => Qlt_bool (t - TestSuite.window_seconds ref) u)
                (TestSuite.get_requests ref k) in
  let ref' := fst (TestSuite.check_limit ref k t) in
  let b := snd (TestSuite.check_limit ref k t) in
  b = negb (Z.of_nat (length pruned) >=? TestSuite.max_requests ref)
  /\ TestSuite.max_requests ref' = TestSuite.max_requests ref
  /\ TestSuite.window_seconds ref' = TestSuite.window_seconds ref
  /\ TestSuite.get_requests ref' k = (if b then pruned ++ [t] else pruned)
  /\ (forall k', k' ≠ k ->
        TestSuite.get_requests ref' k' = TestSuite.get_requests ref k').
Proof.
  cbv zeta. unfold TestSuite.check_limit.
  set (ref1 := match TestSuite.requests ref !! k with
               | Some _ => ref
               | None => TestSuite.set_requests k [] ref
               end).
  assert (H1 : TestSuite.max_requests ref1 = TestSuite.max_requests ref
               /\ TestSuite.window_seconds ref1 = TestSuite.window_seconds ref
               /\ forall k', TestSuite.get_requests ref1 k'
                             = TestSuite.get_requests ref k').
  { unfold ref1. destruct (TestSuite.requests ref !! k) eqn:Hk;
      [repeat split; reflexivity|].
    repeat split; try reflexivity. intros k'.
    destruct (decide (k' = k)) as [->|Hne].
    - rewrite reference_get_set_eq. unfold TestSuite.get_requests.
      rewrite Hk. reflexivity.
    - apply reference_get_set_ne, Hne. }
  destruct H1 as (Hm1 & Hw1 & Hl1). cbv zeta.
  rewrite Hw1, (Hl1 k).
  set (pruned := List.filter _ _).
  rewrite reference_get_set_eq. cbn [TestSuite.max_requests TestSuite.set_requests].
  rewrite Hm1.
  destruct (Z.of_nat (length pruned) >=? TestSuite.max_requests ref);
    cbn [fst snd negb].
  - repeat split; try assumption.
    + apply reference_get_set_eq.
    + intros k' Hne. rewrite reference_get_set_ne by exact Hne. apply Hl1.
  - repeat split; try assumption.
    + apply reference_get_set_eq.
    + intros k' Hne. rewrite !reference_get_set_ne by exact Hne. apply Hl1.
Qed.

Lemma agree_step ref self k t :
  1 <= max_requests self ->
  TestSuite.agree ref self ->
  TestSuite.agree (fst (TestSuite.check_limit ref k t))
                  (fst (check_limit self k t))
  /\ TestSuite.flag (Checked k t (snd (check_limit self k t)))
     = Some (snd (TestSuite.check_limit ref k t)).
Proof.
  intros Hmax (Hm & Hw & Hl).
  pose proof (reference_check_limit ref k t) as Hr. cbv zeta in Hr.
  destruct Hr as (Hb & Hm' & Hw' & Hk & Hother).
  pose proof (check_limit_requests self k t) as Hp. cbv zeta in Hp.
  destruct Hp as (Pm & Pw & Pother & Pcase).
  pose proof (check_limit_no_error self k t Hmax) as Hne.
  rewrite Hw, Hm, (Hl k) in *.
  set (pruned := prune (t - window_seconds self)%Q (get_requests self k)) in *.
  change (List.filter (fun u => Qlt_bool (t - window_seconds self) u)
                      (get_requests self k)) with pruned in *.
  assert (Hflag : snd (TestSuite.check_limit ref k t)
                  = match snd (check_limit self k t) with
                    | Return b _ => b
                    | ValueError => false
                    end).
  { rewrite Hb.
    destruct (snd (check_limit self k t)) as [[|] msg|]; [| |contradiction].
    - destruct Pcase as [Hlt _].
      destruct (Z.geb_spec (Z.of_nat (length pruned)) (max_requests self)); [lia | reflexivity].
    - destruct Pcase as [Hge _].
      destruct (Z.geb_spec (Z.of_nat (length pruned)) (max_requests self)); [reflexivity | lia]. }
  split.
  - split; [congruence|]. split; [congruence|].
    intros k'. destruct (decide (k' = k)) as [->|Hk'].
    + rewrite Hk, Hflag.
      destruct (snd (check_limit self k t)) as [[|] msg|]; [| |contradiction].
      * destruct Pcase as [_ ->]. reflexivity.
      * destruct Pcase as (_ & _ & ->). reflexivity.
    + rewrite Hother, Pother by exact Hk'. apply Hl.
  - rewrite Hflag.
    destruct (snd (check_limit self k t)) as [[|] msg|];
      [reflexivity | reflexivity | contradiction].
Qed.

Lemma agree_run cs : forall ref self,
  1 <= max_requests self ->
  TestSuite.agree ref self ->
  map TestSuite.flag (snd (run self (TestSuite.as_calls cs)))
  = map Some (snd (TestSuite.run ref cs)).
Proof.
  induction cs as [|[k t] cs IH]; intros ref self Hmax Hag; [reflexivity|].
  cbn [TestSuite.as_calls map fst snd run step TestSuite.run].
  destruct (agree_step ref self k t Hmax Hag) as [Hag' Hflag].
  pose proof (check_limit_max_requests self k t) as Hm.
  destruct (check_limit self k t) as [self1 r].
  destruct (TestSuite.check_limit ref k t) as [ref1 b].
  cbn [fst snd] in *.
  specialize (IH ref1 self1 ltac:(lia) Hag').
  fold (TestSuite.as_calls cs).
  destruct (run self1 (TestSuite.as_calls cs)) as [self2 os].
  destruct (TestSuite.run ref1 cs) as [ref2 bs].
  cbn [snd map] in *. rewrite Hflag, IH. reflexivity.
Qed.

(** X11. The limiter agrees with the reference of the test suite: with a
    positive limit, on any sequence of calls at any times, each call of
    [workers/rate_limiter.py] returns the [allowed] flag that the test
    suite's own [RateLimiter] returns for the same call. *)
Theorem limiter_matches_reference (maxr : Z) (w : Q) (cs : list (string * Q)) :
  1 <= maxr ->
  map TestSuite.flag (snd (run (init maxr w) (TestSuite.as_calls cs)))
  = map Some (snd (TestSuite.run (TestSuite.init maxr w) cs)).
Proof.
  intros Hmax. apply agree_run; [exact Hmax|].
  repeat split.
Qed.

Lemma limiter_matches_reference_witness :
  1 <= 2
  /\ map TestSuite.flag
       (snd (run (init 2 1)
               (TestSuite.as_calls
                  [("user123"%string, 0%Q); ("user123"%string, 0%Q);
                   ("user123"%string, 0%Q); ("user123"%string, 11#10)])))
     = [Some true; Some true; Some false; Some true].
Proof.
  split; [lia|].
  rewrite (limiter_matches_reference 2 1 _ ltac:(lia)).
  vm_compute. reflexivity.
Defined.

End ReferenceLimiter.

Section ReferenceValidator.
Import Messages.

Lemma existsb_control_false s :
  existsb (fun c => (c <? 32)%N) s = false <-> Forall (fun c => (32 <= c)%N) s.
Proof.
  induction s as [|c s IH]; cbn [existsb]; [split; [constructor | reflexivity]|].
  rewrite orb_false_iff, IH, N.ltb_ge. split.
  - intros [Hc Hs]. constructor; assumption.
  - intros H. apply Forall_cons in H as [Hc Hs]. split; assumption.
Qed.

(** X18. The validator is more lenient than the reference of the test suite in
    one respect only: the reference accepts a message exactly when
    [MessageValidator.validate_message] accepts it and it holds no
    character below 32, so the two differ on the messages that contain a
    tab, LF, VT, FF or CR, which only the validator lets through. *)
Theorem validator_matches_reference (m : pyobj) :
  TestSuite.validate_message m = true
  <-> validate_message m = (true, None)
      /\ exists s, m = Str s /\ Forall (fun c => (32 <= c)%N) s.
Proof.
  destruct m as [s|ty r]; cbn [TestSuite.validate_message validate_message].
  2:{ split; [discriminate | intros [[=] _]]. }
  unfold MAX_MESSAGE_LENGTH.
  destruct (length s =? 0)%nat; [split; [discriminate | intros [[=] _]]|].
  destruct (4000 <? length s)%nat; [split; [discriminate | intros [[=] _]]|].
  destruct (existsb (N.eqb 0) s) eqn:Hnull;
    [split; [discriminate | intros [[=] _]]|].
  cbn [orb].
  destruct (existsb (fun c => (c <? 32)%N) s) eqn:Hctl.
  - split; [discriminate|]. intros [_ (s' & [= <-] & Hall)].
    apply existsb_control_false in Hall. congruence.
  - apply existsb_control_false in Hctl.
    assert (Hp : Forall printable s).
    { eapply Forall_impl; [exact Hctl|]. intros c Hc. left. exact Hc. }
    rewrite (proj2 (first_invalid_control_none s 0) Hp).
    destruct (strip s); [split; [discriminate | intros [[=] _]]|].
    split; [|reflexivity]. intros _. split; [reflexivity|]. eauto.
Qed.

End ReferenceValidator.

(** * Validated configurations and lone waits *)

Section ValidatedLimiter.
Import Limiter Validators.

(** X10. A validated configuration is safe to run: if
    [validate_rate_limit_config] accepts [max_requests] and
    [window_seconds], both are integers, and on a limiter built from them
    no [check_limit] call ever raises and the counters stay consistent,
    whatever calls are made. *)
Theorem validated_config_never_raises (m w : pyval) (cs : list call) :
  validate_rate_limit_config m w = (true, ""%string) ->
  exists zm zw,
    as_int m = Some zm /\ as_int w = Some zw
    /\ 1 <= zm /\ 1 <= zw
    /\ Forall returned (snd (run (init zm (inject_Z zw)) cs))
    /\ stats_consistent (stats (fst (run (init zm (inject_Z zw)) cs))).
Proof.
  unfold validate_rate_limit_config.
  destruct (negb (isinstance_int m) || le_int m 0) eqn:Hm; [discriminate|].
  destruct (negb (isinstance_int w) || le_int w 0) eqn:Hw; [discriminate|].
  intros _.
  apply positive_int_test in Hm as (zm & Hzm & Hmpos).
  apply positive_int_test in Hw as (zw & Hzw & Hwpos).
  exists zm, zw.
  destruct (run_stats cs (init zm (inject_Z zw)) ltac:(cbn; lia) eq_refl)
    as (Hst & _ & Hret).
  repeat split; try assumption; lia.
Qed.

Lemma validated_config_never_raises_witness :
  validate_rate_limit_config (PyInt 5) (PyInt 1) = (true, ""%string)
  /\ Forall returned
       (snd (run (init 5 (inject_Z 1))
               [CheckLimit "u" 0; CheckLimit "u" 0; GetStats])).
Proof.
  assert (Hv : validate_rate_limit_config (PyInt 5) (PyInt 1) = (true, ""%string))
    by reflexivity.
  split; [exact Hv|].
  destruct (validated_config_never_raises (PyInt 5) (PyInt 1)
              [CheckLimit "u" 0; CheckLimit "u" 0; GetStats] Hv)
    as (zm & zw & [= <-] & [= <-] & _ & _ & Hret & _).
  exact Hret.
Defined.

Lemma block_rate_is_percentage_witness :
  let s := get_stats (fst (run (init 1 1) [CheckLimit "u" 0; CheckLimit "u" 0])) in
  (0 <= snap_block_rate s /\ snap_block_rate s <= 100)%Q
  /\ (snap_block_rate s == 50)%Q.
Proof.
  intros s. split.
  - apply (block_rate_is_percentage 1 1 [CheckLimit "u" 0; CheckLimit "u" 0]).
  - vm_compute. reflexivity.
Defined.

End ValidatedLimiter.

Section ReferenceValidatorExample.
Import Messages.

Lemma validator_matches_reference_witness :
  TestSuite.validate_message (Str [72; 105]%N) = true
  /\ validate_message (Str [72; 105]%N) = (true, None)
  /\ TestSuite.validate_message (Str [72; 9; 105]%N) = false
  /\ validate_message (Str [72; 9; 105]%N) = (true, None).
Proof.
  assert (Hr : TestSuite.validate_message (Str [72; 105]%N) = true)
    by reflexivity.
  split; [exact Hr|]. split.
  - apply (validator_matches_reference (Str [72; 105]%N)), Hr.
  - split; reflexivity.
Defined.

End ReferenceValidatorExample.

Section LoneWait.
Import Shutdown ShutdownAux Scenarios.

Lemma poll_alone timeout start n : forall w,
  ((timeout - (loop_time w - start)) * 10 < inject_Z (Z.of_nat n))%Q ->
  schedule w = [] ->
  wp (poll (S n) timeout start)
     (fun w' r =>
        r = Returned (negb (pending_operations w >? 0))
        /\ get_view w' = get_view w
        /\ shutdown_handlers w' = shutdown_handlers w) w.
Proof.
  induction n as [|n IH]; intros w Hfuel Hs; unfold wp; cbn [poll]; cbv beta;
    destruct (Z.gtb_spec (pending_operations w) 0) as [Hpos | Hzero].
  - destruct (Qlt_bool timeout (loop_time w - start)) eqn:Hel.
    + apply wp_bind, wp_logger, wp_ret. repeat split.
    + apply Qlt_bool_false_iff in Hel.
      change (inject_Z (Z.of_nat 0)) with 0%Q in Hfuel. lra.
  - apply wp_bind, wp_logger, wp_ret. repeat split.
  - destruct (Qlt_bool timeout (loop_time w - start)) eqn:Hel.
    + apply wp_bind, wp_logger, wp_ret. repeat split.
    + apply Qlt_bool_false_iff in Hel.
      apply wp_bind, wp_logger, wp_bind.
      set (w1 := emit [Log DEBUG (WaitingFor (pending_operations w))] w).
      assert (Hs1 : schedule w1 = []) by exact Hs.
      assert (Hv : get_view (resume_after (1#10) w1) = get_view w).
      { unfold resume_after. rewrite Hs1. reflexivity. }
      apply wp_sleep_cases; [rewrite Hs1; cbn; discriminate|]. intros _.
      eapply wp_mono; [apply IH|].
      * pose proof (loop_time_resume_after (1#10) w1) as Ht.
        change (loop_time w1) with (loop_time w) in Ht.
        rewrite Nat2Z.inj_succ in Hfuel. unfold Z.succ in Hfuel.
        rewrite inject_Z_plus in Hfuel.
        change (inject_Z 1) with 1%Q in Hfuel. lra.
      * rewrite schedule_resume_after, Hs1. reflexivity.
      * intros w' r (Hr & Hv' & Hh').
        assert (Hp : pending_operations (resume_after (1#10) w1)
                     = pending_operations w)
          by (apply (f_equal v_pending_operations) in Hv; exact Hv).
        rewrite Hp in Hr.
        destruct (Z.gtb_spec (pending_operations w) 0) as [_|Hle]; [|lia].
        split; [exact Hr|]. split; [congruence | exact Hh'].
  - apply wp_bind, wp_logger, wp_ret. repeat split.
Qed.

(** X23. The wait only watches: when nothing else runs while it sleeps,
    [wait_for_pending_operations] returns [True] if the counter was
    already at zero and [False], after its timeout, if it was not; in
    both cases the counter, the tracked tasks, the handlers and the
    shutdown flag are as they were. *)
Theorem wait_for_pending_operations_observes (timeout : Q) (w : world) :
  schedule w = [] ->
  exists w',
    wait_for_pending_operations timeout w
    = Some (w', Returned (negb (pending_operations w >? 0)))
    /\ get_view w' = get_view w
    /\ shutdown_handlers w' = shutdown_handlers w.
Proof.
  intros Hs.
  assert (H : wp (wait_for_pending_operations timeout)
                 (fun w' r =>
                    r = Returned (negb (pending_operations w >? 0))
                    /\ get_view w' = get_view w
                    /\ shutdown_handlers w' = shutdown_handlers w) w).
  { unfold wait_for_pending_operations, poll_bound.
    apply poll_alone; [|exact Hs].
    pose proof (poll_bound_enough timeout). lra. }
  destruct H as (w' & r & Hrun & -> & Hv & Hh).
  exists w'. auto.
Qed.

Lemma wait_for_pending_operations_observes_witness :
  schedule stuck_operations = []
  /\ exists w',
      wait_for_pending_operations (1#2) stuck_operations
      = Some (w', Returned false)
      /\ pending_operations w' = 3.
Proof.
  split; [reflexivity|].
  destruct (wait_for_pending_operations_observes (1#2) stuck_operations eq_refl)
    as (w' & Hrun & Hv & _).
  exists w'. split; [exact Hrun|].
  apply (f_equal v_pending_operations) in Hv. exact Hv.
Defined.

End LoneWait.
